(** * llmchat: mode resolver, stream encoder, stream reducer and branch store

    A shallow embedding of the orchestration core of the chat client:

    - [packages/shared/config/chat-mode.ts]: [selectModelForQuery],
      [getModelSelectionReason], [selectOpenRouterFallback],
      [selectGeminiFallback];
    - the completion route helpers: [sendMessage],
      [normalizeMarkdownContent], [getProviderForMode],
      [ensureProviderAvailability];
    - [packages/common/hooks/agent-provider.tsx]: [handleThreadItemUpdate]
      and the event loop of [runAgent];
    - the chat store: [pruneBranchSelections], the thread-item operations
      and the batched persistence queue.

    Strings are [string] (sequences of 8-bit characters).  The JavaScript
    operations are modelled exactly on the ASCII range; a character outside
    that range is an opaque symbol that is neither a word character, nor
    white space, nor changed by [toLowerCase]. *)

From stdpp Require Import gmap strings list.
From Stdlib Require Import DecimalString ZArith Ascii.
From Stdlib Require Floats Uint63.

Open Scope string_scope.
Open Scope Z_scope.

(** ** JavaScript string primitives *)

Module Js.

Definition code (c : ascii) : N := N_of_ascii c.

(** [\w] of a regular expression without the [u] flag: [[A-Za-z0-9_]]. *)
Definition isWordChar (c : ascii) : bool :=
  let n := code c in
  ((65 <=? n) && (n <=? 90) || (97 <=? n) && (n <=? 122)
   || (48 <=? n) && (n <=? 57) || (n =? 95))%N.

(** [\s] and the characters removed by [trim], on the ASCII range. *)
Definition isSpace (c : ascii) : bool :=
  let n := code c in ((9 <=? n) && (n <=? 13) || (n =? 32))%N.

Definition isDigit (c : ascii) : bool :=
  let n := code c in ((48 <=? n) && (n <=? 57))%N.

Definition lowerChar (c : ascii) : ascii :=
  let n := code c in
  if ((65 <=? n) && (n <=? 90))%N then ascii_of_N (n + 32) else c.

(** [s.toLowerCase()] *)
Fixpoint toLowerCase (s : string) : string :=
  match s with
  | EmptyString => EmptyString
  | String c s' => String (lowerChar c) (toLowerCase s')
  end.

Fixpoint startsWith (w s : string) : bool :=
  match w, s with
  | EmptyString, _ => true
  | String a w', String b s' => if decide (a = b) then startsWith w' s' else false
  | String _ _, EmptyString => false
  end.

(** [s.includes(w)] *)
Fixpoint includes (s w : string) : bool :=
  startsWith w s ||
  match s with
  | EmptyString => false
  | String _ s' => includes s' w
  end.

(** [s.trim().length > 0] *)
Fixpoint trimNonEmpty (s : string) : bool :=
  match s with
  | EmptyString => false
  | String c s' => negb (isSpace c) || trimNonEmpty s'
  end.

(** Number of maximal white-space runs of [s]; [inSpace] tells whether the
    previous character was white space. *)
Fixpoint spaceRuns (inSpace : bool) (s : string) : nat :=
  match s with
  | EmptyString => O
  | String c s' =>
      if isSpace c then (if inSpace then spaceRuns true s' else S (spaceRuns true s'))
      else spaceRuns false s'
  end.

(** [s.split(/\s+/).length]: one more piece than there are separators. *)
Definition splitSpacesLength (s : string) : nat := S (spaceRuns false s).

(** Number of maximal runs of characters that are not white space. *)
Fixpoint wordRuns (inWord : bool) (s : string) : nat :=
  match s with
  | EmptyString => O
  | String c s' =>
      if isSpace c then wordRuns false s'
      else (if inWord then wordRuns true s' else S (wordRuns true s'))
  end.

(** [s.trim().split(/\s+/).filter(Boolean).length] *)
Definition wordCount (s : string) : nat := wordRuns false s.

(** *** Regular expressions of the shape [\b(a1|...|an)\b]

    An alternative is a sequence of character classes.  As [test] and
    [match] only ask whether some match exists, a match is a position and
    an alternative such that the alternative consumes a segment with a word
    boundary on each side. *)

Definition charClass := ascii → bool.

Definition lit (c : ascii) : charClass := λ x, bool_decide (x = c).
Definition litCI (c : ascii) : charClass :=
  λ x, bool_decide (lowerChar x = lowerChar c).

Fixpoint classes (f : ascii → charClass) (w : string) : list charClass :=
  match w with
  | EmptyString => []
  | String c w' => f c :: classes f w'
  end.

Definition headIsWord (s : string) : bool :=
  match s with
  | EmptyString => false
  | String c _ => isWordChar c
  end.

(** Consumes an alternative at the head of [s]; returns whether the last
    consumed character is a word character, and the rest. *)
Fixpoint consume (alt : list charClass) (lastWord : bool) (s : string)
  : option (bool * string) :=
  match alt with
  | [] => Some (lastWord, s)
  | p :: alt' =>
      match s with
      | EmptyString => None
      | String c s' => if p c then consume alt' (isWordChar c) s' else None
      end
  end.

Definition matchHere (prevWord : bool) (alt : list charClass) (s : string) : bool :=
  xorb prevWord (headIsWord s) &&
  match consume alt prevWord s with
  | Some (lastWord, rest) => xorb lastWord (headIsWord rest)
  | None => false
  end.

Fixpoint scan (alts : list (list charClass)) (prevWord : bool) (s : string) : bool :=
  existsb (λ alt, matchHere prevWord alt s) alts ||
  match s with
  | EmptyString => false
  | String c s' => scan alts (isWordChar c) s'
  end.

(** [/\b(w1|...|wn)\b/i.test(s)] *)
Definition testWordsCI (ws : list string) (s : string) : bool :=
  scan (map (classes litCI) ws) false s.

(** [`${n}`] for an integer. *)
Definition numberToString (n : Z) : string := NilZero.string_of_int (Z.to_int n).

End Js.

(** ** Chat modes and the mode resolver ([chat-mode.ts]) *)

Inductive ChatMode : Type :=
  | Auto
  | Pro
  | Deep
  | GEMINI_2_5_PRO
  | GEMINI_2_5_FLASH
  | GLM_4_5_AIR
  | DEEPSEEK_CHAT_V3_1
  | DEEPSEEK_R1
  | LONGCAT_FLASH_CHAT
  | GPT_OSS_20B
  | DOLPHIN_MISTRAL_24B_VENICE
  | DOCUMENT_QA
  | IMAGE_GENERATION.

#[global] Instance ChatMode_eq_dec : EqDecision ChatMode.
Proof. solve_decision. Defined.

Definition getChatModeName (mode : ChatMode) : string :=
  match mode with
  | Auto => "Auto (Recommended)"
  | Deep => "Deep Research"
  | Pro => "Pro Search"
  | GEMINI_2_5_PRO => "Gemini 2.5 Pro"
  | GEMINI_2_5_FLASH => "Gemini 2.5 Flash"
  | GLM_4_5_AIR => "GLM 4.5 Air"
  | DEEPSEEK_CHAT_V3_1 => "DeepSeek Chat v3.1"
  | DEEPSEEK_R1 => "DeepSeek R1"
  | LONGCAT_FLASH_CHAT => "LongCat Flash Chat"
  | GPT_OSS_20B => "GPT-OSS 20B"
  | DOLPHIN_MISTRAL_24B_VENICE => "Dolphin Mistral 24B Venice"
  | DOCUMENT_QA => "Document Q&A"
  | IMAGE_GENERATION => "Image Generation"
  end.

Definition imageWords : list string :=
  ["image"; "photo"; "picture"; "screenshot"; "diagram"; "chart"; "graph"; "visual"].

Definition codeIndicators : list string :=
  ["code"; "function"; "class"; "algorithm"; "debug"; "error"; "bug";
   "implement"; "refactor"; "optimize"; "python"; "javascript"; "typescript";
   "java"; "c++"; "rust"; "go"; "sql"; "api"; "regex"; "git"].

Definition mathIndicators : list string :=
  ["calculate"; "solve"; "equation"; "math"; "proof"; "theorem"; "reasoning";
   "logic"; "derive"; "compute"; "algorithm complexity"].

Definition mathWords : list string :=
  ["prove"; "theorem"; "∫"; "∑"; "∏"; "∂"].

Definition newsIndicators : list string :=
  ["news"; "latest"; "recent"; "today"; "yesterday"; "current"; "breaking"; "trending"].

Definition researchWords : list string :=
  ["research"; "analyze"; "compare"; "comprehensive"; "detailed"; "explain"].

Definition creativeIndicators : list string :=
  ["write"; "story"; "poem"; "creative"; "fiction"; "essay"; "article";
   "blog"; "script"; "dialogue"; "character"].

Definition translationWords : list string :=
  ["translate"; "translation"; "language"].

(** [indicators.filter(word => lowerQuery.includes(word)).length] *)
Definition score (indicators : list string) (lowerQuery : string) : nat :=
  length (filter (λ word, Js.includes lowerQuery word = true) indicators).

(** The alternatives of
    [new RegExp(`\\b(${currentYear}|${currentYear - 1}|202[0-9])\\b`, 'g')]. *)
Definition recentYearAlternatives (currentYear : Z) : list (list Js.charClass) :=
  [ Js.classes Js.lit (Js.numberToString currentYear);
    Js.classes Js.lit (Js.numberToString (currentYear - 1));
    (Js.classes Js.lit "202" ++ [Js.isDigit])%list ].

(** The alternative [202[0-9]] alone. *)
Definition decadeAlternative : list Js.charClass :=
  (Js.classes Js.lit "202" ++ [Js.isDigit])%list.

(** [query.match(...)] is not [null]. *)
Definition recentYearMentions (currentYear : Z) (query : string) : bool :=
  Js.scan (recentYearAlternatives currentYear) false query.

(** [selectModelForQuery].  The source reads the calendar year from
    [new Date().getFullYear()]; it is the explicit argument [currentYear]. *)
Definition selectModelForQuery (currentYear : Z) (query : string) (hasImage : bool)
  : ChatMode :=
  let lowerQuery := Js.toLowerCase query in
  let length := Js.splitSpacesLength query in
  if hasImage || Js.testWordsCI imageWords query then GEMINI_2_5_FLASH
  else if bool_decide (2 ≤ score codeIndicators lowerQuery)%nat then DEEPSEEK_CHAT_V3_1
  else if bool_decide (2 ≤ score mathIndicators lowerQuery)%nat
          || Js.testWordsCI mathWords query then DEEPSEEK_R1
  else if recentYearMentions currentYear query
          || bool_decide (2 ≤ score newsIndicators lowerQuery)%nat then LONGCAT_FLASH_CHAT
  else if bool_decide (50 < length)%nat || Js.testWordsCI researchWords query
       then GEMINI_2_5_PRO
  else if bool_decide (2 ≤ score creativeIndicators lowerQuery)%nat then GLM_4_5_AIR
  else if Js.testWordsCI translationWords query && bool_decide (length < 30)%nat
       then GEMINI_2_5_FLASH
  else if bool_decide (length < 20)%nat then GEMINI_2_5_FLASH
  else DEEPSEEK_CHAT_V3_1.

(** [getModelSelectionReason] *)
Definition getModelSelectionReason (query : string) (selectedModel : ChatMode) : string :=
  let lowerQuery := Js.toLowerCase query in
  match selectedModel with
  | GEMINI_2_5_FLASH =>
      if Js.testWordsCI ["image"; "photo"; "picture"] query
      then "Multimodal capabilities for image analysis"
      else "Fast response for quick queries"
  | GEMINI_2_5_PRO => "Deep research and comprehensive analysis"
  | DEEPSEEK_CHAT_V3_1 =>
      if Js.includes lowerQuery "code" then "Optimized for coding tasks"
      else "Balanced performance for general queries"
  | DEEPSEEK_R1 => "Advanced reasoning with chain-of-thought"
  | LONGCAT_FLASH_CHAT => "Real-time information with internet access"
  | GLM_4_5_AIR => "Creative content generation"
  | _ => "General-purpose model"
  end.

(** [selectOpenRouterFallback] *)
Definition selectOpenRouterFallback (currentYear : Z) (query : string) : ChatMode :=
  let lowerQuery := Js.toLowerCase query in
  if bool_decide (2 ≤ score codeIndicators lowerQuery)%nat then DEEPSEEK_CHAT_V3_1
  else if bool_decide (2 ≤ score mathIndicators lowerQuery)%nat
          || Js.testWordsCI mathWords query then DEEPSEEK_R1
  else if recentYearMentions currentYear query
          || bool_decide (2 ≤ score newsIndicators lowerQuery)%nat then LONGCAT_FLASH_CHAT
  else if bool_decide (2 ≤ score creativeIndicators lowerQuery)%nat then GLM_4_5_AIR
  else DEEPSEEK_CHAT_V3_1.

(** [selectGeminiFallback] *)
Definition selectGeminiFallback (query : string) (hasImage : bool) : ChatMode :=
  if hasImage then GEMINI_2_5_FLASH
  else if bool_decide (50 < Js.wordCount query)%nat then GEMINI_2_5_PRO
  else GEMINI_2_5_FLASH.

(** ** Providers and models ([providers.ts], [models.ts]) *)

Inductive ProviderEnumType : Type := GOOGLE | OPENROUTER.

#[global] Instance ProviderEnumType_eq_dec : EqDecision ProviderEnumType.
Proof. solve_decision. Defined.

Inductive ModelEnum : Type :=
  | M_GEMINI_2_5_PRO
  | M_GEMINI_2_5_FLASH
  | M_GEMINI_2_5_FLASH_IMAGE
  | M_GLM_4_5_AIR
  | M_DEEPSEEK_CHAT_V3_1
  | M_DEEPSEEK_R1
  | M_LONGCAT_FLASH_CHAT
  | M_GPT_OSS_20B
  | M_DOLPHIN_MISTRAL_24B_VENICE.

#[global] Instance ModelEnum_eq_dec : EqDecision ModelEnum.
Proof. solve_decision. Defined.

Record Model : Type := mkModel {
  model_id : ModelEnum;
  model_name : string;
  model_provider : ProviderEnumType;
}.

Definition models : list Model :=
  [ mkModel M_GEMINI_2_5_FLASH "Gemini 2.5 Flash" GOOGLE;
    mkModel M_GEMINI_2_5_FLASH_IMAGE "Gemini 2.5 Flash Image Preview" GOOGLE;
    mkModel M_GEMINI_2_5_PRO "Gemini 2.5 Pro" GOOGLE;
    mkModel M_GLM_4_5_AIR "GLM 4.5 Air (OpenRouter Free)" OPENROUTER;
    mkModel M_DEEPSEEK_CHAT_V3_1 "DeepSeek Chat v3.1 (OpenRouter Free)" OPENROUTER;
    mkModel M_DEEPSEEK_R1 "DeepSeek R1 (OpenRouter Free)" OPENROUTER;
    mkModel M_LONGCAT_FLASH_CHAT "LongCat Flash Chat (OpenRouter Free)" OPENROUTER;
    mkModel M_GPT_OSS_20B "GPT-OSS 20B (OpenRouter Free)" OPENROUTER;
    mkModel M_DOLPHIN_MISTRAL_24B_VENICE "Dolphin Mistral 24B Venice (OpenRouter Free)" OPENROUTER ].

Definition getModelFromChatMode (mode : ChatMode) : ModelEnum :=
  match mode with
  | GEMINI_2_5_PRO => M_GEMINI_2_5_PRO
  | GEMINI_2_5_FLASH => M_GEMINI_2_5_FLASH
  | GLM_4_5_AIR => M_GLM_4_5_AIR
  | DEEPSEEK_CHAT_V3_1 => M_DEEPSEEK_CHAT_V3_1
  | DEEPSEEK_R1 => M_DEEPSEEK_R1
  | LONGCAT_FLASH_CHAT => M_LONGCAT_FLASH_CHAT
  | GPT_OSS_20B => M_GPT_OSS_20B
  | DOLPHIN_MISTRAL_24B_VENICE => M_DOLPHIN_MISTRAL_24B_VENICE
  | IMAGE_GENERATION => M_GEMINI_2_5_FLASH_IMAGE
  | _ => M_GEMINI_2_5_FLASH
  end.

(** A thrown JavaScript error object: the [name] of its class and its
    [message]. *)
Record JsError : Type := mkJsError {
  err_name : string;
  err_message : string;
}.

(** [new Error(message)] *)
Definition Error (message : string) : JsError := mkJsError "Error" message.
(** [new TypeError(message)] *)
Definition TypeError (message : string) : JsError := mkJsError "TypeError" message.

(** The class [MissingProviderKeyError] of [providers.ts]. *)
Definition MissingProviderKeyError (provider : ProviderEnumType) : JsError :=
  let providerName := if decide (provider = GOOGLE) then "Google Gemini" else "OpenRouter" in
  let envHint :=
    if decide (provider = GOOGLE)
    then "Set the GEMINI_API_KEY environment variable or provide a personal key in Settings → API Keys."
    else "Set the OPENROUTER_API_KEY environment variable or provide a personal key in Settings → API Keys." in
  mkJsError "MissingProviderKeyError"
    ("Missing " +:+ providerName +:+ " API credentials. " +:+ envHint).

(** Outcome of a call that either returns or throws. *)
Inductive Result (A : Type) : Type :=
  | Ok (a : A)
  | Throw (e : JsError).
Arguments Ok {A} a.
Arguments Throw {A} e.

(** [Boolean(s)] for a string. *)
Definition truthy (s : string) : bool := negb (bool_decide (s = EmptyString)).

(** ** Provider availability (completion route) *)

(** [getProviderForMode]; [None] is the source's [null]. *)
Definition getProviderForMode (mode : ChatMode) : option ProviderEnumType :=
  let modelId := getModelFromChatMode mode in
  model_provider <$> find (λ model, bool_decide (model_id model = modelId)) models.

Record Availability : Type := mkAvailability {
  av_mode : ChatMode;
  av_changed : bool;
  av_message : option string;
}.

Section Availability.

(** The calendar year read by the fallback heuristics, and the credential
    store read by [getProviderApiKey] (environment variables or the
    page's [AI_API_KEYS]); the empty string stands for a missing key. *)
Variable currentYear : Z.
Variable getProviderApiKey : ProviderEnumType → string.

Definition fallbackUsable (fallbackMode : ChatMode) : bool :=
  match getProviderForMode fallbackMode with
  | None => false
  | Some fallbackProvider => truthy (getProviderApiKey fallbackProvider)
  end.

Definition ensureProviderAvailability (mode : ChatMode) (query : string)
    (hasImageAttachment : bool) : Result Availability :=
  match getProviderForMode mode with
  | None => Ok (mkAvailability mode false None)
  | Some provider =>
      if truthy (getProviderApiKey provider) then Ok (mkAvailability mode false None)
      else
        match provider with
        | GOOGLE =>
            if hasImageAttachment then
              Throw (Error "Image questions in Auto mode require a configured GEMINI_API_KEY. Please add your Gemini key or remove the image.")
            else
              let fallbackMode := selectOpenRouterFallback currentYear query in
              if negb (fallbackUsable fallbackMode) then
                Throw (Error "Auto mode needs at least one provider configured. Please set OPENROUTER_API_KEY to enable OpenRouter models or add a personal key in Settings → API Keys.")
              else
                Ok (mkAvailability fallbackMode true
                      (Some "Fallback to OpenRouter because Gemini API key is missing"))
        | OPENROUTER =>
            let fallbackMode := selectGeminiFallback query hasImageAttachment in
            if negb (fallbackUsable fallbackMode) then
              Throw (Error "Auto mode needs a Gemini API key when OpenRouter is unavailable. Please set GEMINI_API_KEY or provide a personal key in Settings → API Keys.")
            else
              Ok (mkAvailability fallbackMode true
                    (Some "Fallback to Gemini because OpenRouter API key is missing"))
        end
  end.

End Availability.

(** ** JavaScript values

    The values that travel in event payloads: what [JSON.parse] produces,
    [undefined], and [BigInt], the one primitive [JSON.stringify] refuses.
    Numbers are integers; an object is its list of own properties in
    insertion order. *)

#[local] Set Warnings "-register-all".

Inductive JsValue : Type :=
  | JUndefined
  | JNull
  | JBool (b : bool)
  | JNum (n : Z)
  | JBigInt (n : Z)
  | JStr (s : string)
  | JArr (items : list JsValue)
  | JObj (fields : list (string * JsValue)).

Module JsVal.

Definition nl : string := String "010" EmptyString.
Definition dquote : string := String "034" EmptyString.
Definition backslash : string := String "092" EmptyString.

(** [Boolean(v)] *)
Definition isTruthy (v : JsValue) : bool :=
  match v with
  | JUndefined | JNull => false
  | JBool b => b
  | JNum n | JBigInt n => negb (n =? 0)
  | JStr s => truthy s
  | JArr _ | JObj _ => true
  end.

(** [a || b] *)
Definition or (a b : JsValue) : JsValue := if isTruthy a then a else b.

(** [a ?? b] *)
Definition nullish (a b : JsValue) : JsValue :=
  match a with
  | JUndefined | JNull => b
  | _ => a
  end.

(** [o.k]: the value of the first property named [k], [undefined] when
    there is none. *)
Definition getProp (o : list (string * JsValue)) (k : string) : JsValue :=
  match find (λ kv, bool_decide (kv.1 = k)) o with
  | Some kv => kv.2
  | None => JUndefined
  end.

(** [v.k] for a value that may not be an object. *)
Definition getField (v : JsValue) (k : string) : JsValue :=
  match v with
  | JObj fields => getProp fields k
  | _ => JUndefined
  end.

(** [`${v}`] *)
Fixpoint toStr (v : JsValue) : string :=
  match v with
  | JUndefined => "undefined"
  | JNull => "null"
  | JBool b => if b then "true" else "false"
  | JNum n | JBigInt n => Js.numberToString n
  | JStr s => s
  | JArr items =>
      String.concat ","
        ((fix elements (l : list JsValue) : list string :=
            match l with
            | [] => []
            | x :: l' =>
                match x with
                | JUndefined | JNull => EmptyString
                | _ => toStr x
                end :: elements l'
            end) items)
  | JObj _ => "[object Object]"
  end.

Definition hexDigit (n : N) : ascii :=
  if (n <? 10)%N then ascii_of_N (48 + n) else ascii_of_N (87 + n).

(** The escape of one character inside a JSON string literal. *)
Definition escapeChar (c : ascii) : string :=
  let n := Js.code c in
  if (n =? 34)%N then backslash +:+ dquote
  else if (n =? 92)%N then backslash +:+ backslash
  else if (n =? 8)%N then backslash +:+ "b"
  else if (n =? 9)%N then backslash +:+ "t"
  else if (n =? 10)%N then backslash +:+ "n"
  else if (n =? 12)%N then backslash +:+ "f"
  else if (n =? 13)%N then backslash +:+ "r"
  else if (n <? 32)%N then
    backslash +:+ "u00" +:+ String (hexDigit (n / 16)) (String (hexDigit (n mod 16)) EmptyString)
  else String c EmptyString.

Fixpoint escape (s : string) : string :=
  match s with
  | EmptyString => EmptyString
  | String c s' => escapeChar c +:+ escape s'
  end.

(** [JSON.stringify(s)] for a string. *)
Definition quote (s : string) : string := dquote +:+ escape s +:+ dquote.

(** [JSON.stringify(v)]: [Ok None] is the result [undefined]; a [BigInt]
    anywhere in [v] throws. *)
Fixpoint stringify (v : JsValue) : Result (option string) :=
  match v with
  | JUndefined => Ok None
  | JNull => Ok (Some "null")
  | JBool b => Ok (Some (if b then "true" else "false"))
  | JNum n => Ok (Some (Js.numberToString n))
  | JBigInt _ => Throw (TypeError "Do not know how to serialize a BigInt")
  | JStr s => Ok (Some (quote s))
  | JArr items =>
      match
        (fix elements (l : list JsValue) : Result (list string) :=
           match l with
           | [] => Ok []
           | x :: l' =>
               match stringify x with
               | Throw e => Throw e
               | Ok r =>
                   match elements l' with
                   | Throw e => Throw e
                   | Ok rs => Ok (default "null" r :: rs)
                   end
               end
           end) items
      with
      | Throw e => Throw e
      | Ok parts => Ok (Some ("[" +:+ String.concat "," parts +:+ "]"))
      end
  | JObj fields =>
      match
        (fix members (l : list (string * JsValue)) : Result (list string) :=
           match l with
           | [] => Ok []
           | (k, x) :: l' =>
               match stringify x with
               | Throw e => Throw e
               | Ok r =>
                   match members l' with
                   | Throw e => Throw e
                   | Ok rs =>
                       Ok (match r with
                           | Some text => (quote k +:+ ":" +:+ text) :: rs
                           | None => rs
                           end)
                   end
               end
           end) fields
      with
      | Throw e => Throw e
      | Ok parts => Ok (Some ("{" +:+ String.concat "," parts +:+ "}"))
      end
  end.

End JsVal.

(** ** The stream encoder ([sendMessage], completion route)

    The sink is a [ReadableStream] controller guarded by the flag
    [__closed].  [enqueue] either accepts the chunk or throws the error
    [streamError] of a stream that no longer takes chunks.  Chunks are the
    UTF-8 bytes of the frames, so [encoder.encode] is the identity on
    [string]. *)

Record Controller : Type := mkController {
  enqueued : list string;
  __closed : bool;
  streamError : option JsError;
}.

(** A call of [logger.error(message, error, ...)]. *)
Record LogEntry : Type := mkLogEntry {
  log_message : string;
  log_error : JsError;
}.

Record World : Type := mkWorld {
  controller : Controller;
  logged : list LogEntry;
}.

(** Computations that read and write the sink and the log and may throw;
    what was written before a throw stays written. *)
Definition Eff (A : Type) : Type := World → Result A * World.

Definition ret {A} (a : A) : Eff A := λ w, (Ok a, w).

Definition bind {A B} (m : Eff A) (f : A → Eff B) : Eff B :=
  λ w, match m w with
       | (Ok a, w') => f a w'
       | (Throw e, w') => (Throw e, w')
       end.

Definition throw {A} (e : JsError) : Eff A := λ w, (Throw e, w).

(** [try { body } catch (error) { handler }] *)
Definition tryCatch {A} (body : Eff A) (handler : JsError → Eff A) : Eff A :=
  λ w, match body w with
       | (Ok a, w') => (Ok a, w')
       | (Throw e, w') => handler e w'
       end.

Definition liftResult {A} (r : Result A) : Eff A :=
  match r with
  | Ok a => ret a
  | Throw e => throw e
  end.

Notation "'let*' x ':=' m 'in' f" := (bind m (λ x, f))
  (at level 10, x name, m at level 100, f at level 200, only parsing).

(** [controller.enqueue(chunk)] *)
Definition enqueue (chunk : string) : Eff unit :=
  λ w, let c := controller w in
       match streamError c with
       | Some e => (Throw e, w)
       | None =>
           (Ok tt, mkWorld (mkController (enqueued c ++ [chunk]) (__closed c) (streamError c))
                           (logged w))
       end.

(** [controller.__closed = true] *)
Definition markClosed : Eff unit :=
  λ w, let c := controller w in
       (Ok tt, mkWorld (mkController (enqueued c) true (streamError c)) (logged w)).

(** [logger.error(message, error, ...)] *)
Definition loggerError (message : string) (error : JsError) : Eff unit :=
  λ w, (Ok tt, mkWorld (controller w) (logged w ++ [mkLogEntry message error])).

(** [error instanceof TypeError && error.message.toLowerCase().includes('invalid state')] *)
Definition isControllerClosedError (error : JsError) : bool :=
  bool_decide (err_name error = "TypeError")
  && Js.includes (Js.toLowerCase (err_message error)) "invalid state".

(** [content.replace(/\\n/g, '\n')]: every backslash followed by [n] becomes
    a line feed. *)
Fixpoint normalizeMarkdownContent (content : string) : string :=
  match content with
  | String "092" ((String "n" rest) as tail) =>
      String "010" (normalizeMarkdownContent rest)
  | String c rest => String c (normalizeMarkdownContent rest)
  | EmptyString => EmptyString
  end.

(** The properties of an event payload that [sendMessage] reads, typed as
    [executeStream] passes them, and its other properties. *)
Record Payload : Type := mkPayload {
  payload_type : string;
  payload_threadId : option string;
  payload_threadItemId : option string;
  payload_parentThreadItemId : option string;
  payload_content : JsValue;
  payload_rest : list (string * JsValue);
}.

(** [if (payload.content && typeof payload.content === 'string')
       payload.content = normalizeMarkdownContent(payload.content)] *)
Definition normalizeContent (payload : Payload) : Payload :=
  match payload_content payload with
  | JStr content =>
      if truthy content then
        mkPayload (payload_type payload) (payload_threadId payload)
          (payload_threadItemId payload) (payload_parentThreadItemId payload)
          (JStr (normalizeMarkdownContent content)) (payload_rest payload)
      else payload
  | _ => payload
  end.

Definition optStr (o : option string) : JsValue :=
  match o with
  | Some s => JStr s
  | None => JUndefined
  end.

(** [`${x}`] where [x] is the result of [JSON.stringify]. *)
Definition stringified (r : option string) : string := default "undefined" r.

(** [`event: ${type}\ndata: ${data}\n\n`] *)
Definition frame (type data : string) : string :=
  "event: " +:+ type +:+ JsVal.nl +:+ "data: " +:+ data +:+ JsVal.nl +:+ JsVal.nl.

(** The object of the terminal error frame. *)
Definition serializationErrorObject (payload : Payload) : JsValue :=
  JObj [ ("type", JStr "done");
         ("status", JStr "error");
         ("error", JStr "Failed to serialize payload");
         ("threadId", optStr (payload_threadId payload));
         ("threadItemId", optStr (payload_threadItemId payload));
         ("parentThreadItemId", optStr (payload_parentThreadItemId payload)) ].

Section SendMessage.

(** [sanitizePayloadForJSON] of the route's [utils]: it returns the value to
    serialize or throws. *)
Variable sanitizePayloadForJSON : Payload → Result JsValue.

Definition sendMessage (payload0 : Payload) : Eff unit :=
  λ w,
    if __closed (controller w) then (Ok tt, w)
    else
      let payload := normalizeContent payload0 in
      tryCatch
        (let* sanitizedPayload := liftResult (sanitizePayloadForJSON payload) in
         let* data := liftResult (JsVal.stringify sanitizedPayload) in
         let message := frame (payload_type payload) (stringified data) in
         let* _ := enqueue message in
         enqueue EmptyString)
        (λ error,
           if isControllerClosedError error then markClosed
           else
             let* _ := loggerError "Error serializing message payload" error in
             let* data := liftResult (JsVal.stringify (serializationErrorObject payload)) in
             let errorMessage := frame "done" (stringified data) in
             tryCatch
               (enqueue errorMessage)
               (λ fallbackError,
                  if isControllerClosedError fallbackError then markClosed
                  else loggerError "Failed to send serialization error payload" fallbackError))
        w.

(** Successive calls on the same controller. *)
Definition sendAll (payloads : list Payload) : Eff unit :=
  foldr (λ payload rest, let* _ := sendMessage payload in rest) (ret tt) payloads.

End SendMessage.

(** ** Thread items *)

(** The [answer] of a thread item: the accumulated [text], the resolved
    [finalText], the [status], and its other properties. *)
Record Answer : Type := mkAnswer {
  text : option string;
  finalText : option string;
  status : option string;
  answerRest : gmap string JsValue;
}.

(** A thread item: the properties the store and the reducer compute with,
    and the remaining ones ([query], [mode], [status], [error], [metadata],
    [steps], [sources], ...) by name in [props].  Dates are milliseconds
    since the epoch. *)
Record ThreadItem : Type := mkThreadItem {
  id : string;
  threadId : string;
  parentId : option string;
  branchRootId : option string;
  createdAt : Z;
  updatedAt : Z;
  answer : option Answer;
  thinkingProcess : option string;
  props : gmap string JsValue;
}.

(** A [Partial<ThreadItem>]: [None] is an absent property; a present
    property may hold [undefined]. *)
Record PartialThreadItem : Type := mkPartialThreadItem {
  p_id : option string;
  p_threadId : option string;
  p_parentId : option (option string);
  p_branchRootId : option (option string);
  p_createdAt : option Z;
  p_updatedAt : option Z;
  p_answer : option (option Answer);
  p_thinkingProcess : option (option string);
  p_props : gmap string JsValue;
}.

(** [a || b] on optional strings. *)
Definition orStr (a b : option string) : option string :=
  match a with
  | Some s => if truthy s then a else b
  | None => b
  end.

(** ** The stream reducer ([agent-provider.tsx]) *)

(** The [data] object of an event as [handleThreadItemUpdate] reads it: the
    [answer] and [metrics] objects when present, and the other properties
    ([query], [mode], [requestedMode], [modeSelectionReason], [object],
    [steps], ...). *)
Record EventData : Type := mkEventData {
  ev_answer : option (list (string * JsValue));
  ev_metrics : option (list (string * JsValue));
  ev_props : list (string * JsValue);
}.

(** [typeof v === 'string' && v.trim().length > 0] *)
Definition isNonBlankString (v : JsValue) : bool :=
  match v with
  | JStr s => Js.trimNonEmpty s
  | _ => false
  end.

(** [typeof v === 'string' ? v : fallback] *)
Definition stringOr (v : JsValue) (fallback : option string) : option string :=
  match v with
  | JStr s => Some s
  | _ => fallback
  end.

Definition answerKeys : list string :=
  ["text"; "finalText"; "fullText"; "thinkingProcess"; "status"].

Section AnswerMerge.

(** [prevItem.answer] and [eventData.answer || {}]. *)
Variable prevAnswer : option Answer.
Variable incomingAnswer : list (string * JsValue).

Definition incomingText : JsValue := JsVal.getProp incomingAnswer "text".
Definition incomingFinalText : JsValue := JsVal.getProp incomingAnswer "finalText".
Definition incomingFullText : JsValue := JsVal.getProp incomingAnswer "fullText".
Definition incomingThinkingProcess : JsValue := JsVal.getProp incomingAnswer "thinkingProcess".
Definition incomingStatus : JsValue := JsVal.getProp incomingAnswer "status".
Definition incomingRest : gmap string JsValue :=
  list_to_map (filter (λ kv, kv.1 ∉ answerKeys) incomingAnswer).

(** [prevItem.answer ?? { text: '' }] *)
Definition previousAnswer : Answer :=
  default (mkAnswer (Some EmptyString) None None ∅) prevAnswer.

Definition previousText : string := default EmptyString (text previousAnswer).

Definition hasFinalText : bool := isNonBlankString incomingFinalText.
Definition hasFullText : bool := isNonBlankString incomingFullText.

Definition resolvedFinalText : string :=
  if hasFinalText then JsVal.toStr incomingFinalText
  else if hasFullText then JsVal.toStr incomingFullText
  else match finalText previousAnswer with
       | Some previousFinal =>
           if truthy previousFinal then previousFinal else previousText
       | None => previousText
       end.

Definition resolvedText : string :=
  if hasFinalText then JsVal.toStr incomingFinalText
  else if hasFullText then JsVal.toStr incomingFullText
  else previousText +:+
       match incomingText with
       | JUndefined | JNull => EmptyString
       | v => JsVal.toStr v
       end.

Definition nextAnswer : Answer :=
  mkAnswer (Some resolvedText) (Some resolvedFinalText)
    (stringOr incomingStatus (status previousAnswer))
    (incomingRest ∪ answerRest previousAnswer).

End AnswerMerge.

(** ** Branch groups ([branching-utils])

    The chat store imports [resolveBranchRootId], [ensureBranchRootId] and
    [buildBranchGroups] from [./branching-utils], a file that is not among
    the sources.  The three definitions below follow the specification's
    description of them. *)

(** Modelled from the spec: an item without an explicit [branchRootId]
    roots on its [parentId] (a reply) or on itself (a root item). *)
Definition resolveBranchRootId (item : ThreadItem) : string :=
  default (id item) (orStr (orStr (branchRootId item) (parentId item)) None).

(** Modelled from the spec: the normalization that gives every item a
    [branchRootId], the explicit one when the caller passes one. *)
Definition ensureBranchRootId (item : ThreadItem) (explicit : option string) : ThreadItem :=
  mkThreadItem (id item) (threadId item) (parentId item)
    (Some (default (resolveBranchRootId item) (orStr explicit None)))
    (createdAt item) (updatedAt item) (answer item) (thinkingProcess item) (props item).

(** Modelled from the spec: the items grouped by branch root.  The spec
    gives no order to the members of a group; each group holds its members
    in the order of [items]. *)
Definition buildBranchGroups (items : list ThreadItem) : gmap string (list ThreadItem) :=
  foldl (λ groups item,
           let rootId := resolveBranchRootId item in
           <[rootId := (default [] (groups !! rootId) ++ [item])%list]> groups)
        ∅ items.

(** ** The chat store *)

Record State : Type := mkState {
  threadItems : list ThreadItem;
  branchSelections : gmap string string;
  currentThreadId : option string;
}.

(** [state.branchSelections[rootId] = group[group.length - 1].id] when the
    group has a member, [delete state.branchSelections[rootId]] otherwise. *)
Definition selectLastOrDelete (groups : gmap string (list ThreadItem)) (rootId : string)
    (selections : gmap string string) : gmap string string :=
  match groups !! rootId ≫= last with
  | Some item => <[rootId := id item]> selections
  | None => delete rootId selections
  end.

(** One iteration of [Object.entries(state.branchSelections).forEach]. *)
Definition pruneEntry (groups : gmap string (list ThreadItem)) (validIds : gset string)
    (selections : gmap string string) (entry : string * string) : gmap string string :=
  let rootId := entry.1 in
  let selectedId := entry.2 in
  let hasSelected :=
    match groups !! rootId with
    | Some group => existsb (λ item, bool_decide (id item = selectedId)) group
    | None => false
    end in
  let selections1 :=
    if negb hasSelected then selectLastOrDelete groups rootId selections else selections in
  if negb (bool_decide (selectedId ∈ validIds))
  then selectLastOrDelete groups rootId selections1
  else selections1.

(** One iteration of [groups.forEach]. *)
Definition defaultEntry (selections : gmap string string) (entry : string * list ThreadItem)
  : gmap string string :=
  let rootId := entry.1 in
  match last entry.2 with
  | None => selections
  | Some item =>
      if negb (truthy (default EmptyString (selections !! rootId)))
      then <[rootId := id item]> selections
      else selections
  end.

(** [pruneBranchSelections].  Both loops visit the entries in the order of
    [map_to_list]; each iteration reads and writes the selection of its own
    key only. *)
Definition pruneBranchSelections (state : State) : State :=
  let items := map (λ item, ensureBranchRootId item None) (threadItems state) in
  let groups := buildBranchGroups items in
  let validIds : gset string := list_to_set (map id items) in
  let selections1 :=
    foldl (pruneEntry groups validIds) (branchSelections state)
          (map_to_list (branchSelections state)) in
  let selections2 := foldl defaultEntry selections1 (map_to_list groups) in
  mkState items selections2 (currentThreadId state).

(** [index = items.findIndex(t => t.id === itemId)]; [items[index] = item]
    when found, [items.push(item)] otherwise. *)
Fixpoint replaceOrPush (itemId : string) (item : ThreadItem) (items : list ThreadItem)
  : list ThreadItem :=
  match items with
  | [] => [item]
  | t :: rest =>
      if bool_decide (id t = itemId) then item :: rest
      else t :: replaceOrPush itemId item rest
  end.




(** [clearAllThreads] *)
Definition clearAllThreads (state : State) : State :=
  mkState [] ∅ (currentThreadId state).

(** [createThreadItem]; [put] is the outcome of
    [await db.threadItems.put(normalizedThreadItem)].  The action never
    throws: a rejected write is caught and written to the console, and the
    reducer is not run. *)
Definition createThreadItem (put : Result unit) (threadItem : ThreadItem) (state : State)
  : State :=
  match orStr (Some (threadId threadItem)) (currentThreadId state) with
  | None => state
  | Some threadId' =>
      if negb (truthy threadId') then state
      else
        let normalizedThreadItem :=
          ensureBranchRootId
            (mkThreadItem (id threadItem) threadId' (parentId threadItem)
               (branchRootId threadItem) (createdAt threadItem) (updatedAt threadItem)
               (answer threadItem) (thinkingProcess threadItem) (props threadItem))
            (branchRootId threadItem) in
        match put with
        | Throw _ => state
        | Ok _ =>
            let rootId := resolveBranchRootId normalizedThreadItem in
            pruneBranchSelections
              (mkState
                 (replaceOrPush (id normalizedThreadItem) normalizedThreadItem
                    (threadItems state))
                 (<[rootId := id normalizedThreadItem]> (branchSelections state))
                 (currentThreadId state))
        end
  end.

(** [deleteThreadItem].  [deleted], [remainingItems] and [threadDeleted]
    are the outcomes of the awaited [db.threadItems.delete(threadItemId)],
    [db.threadItems.where('threadId').equals(threadId).count()] and
    [db.threads.delete(threadId)]; [threads] are the ids of [state.threads].
    When an awaited operation rejects, the action throws and the store stays
    as it is at that point.  The redirection to [/chat] and the deletion of
    the remote thread touch nothing of [State]. *)
Definition deleteThreadItem (deleted : Result unit) (remainingItems : Result nat)
    (threadDeleted : Result unit) (threads : list string) (threadItemId : string)
    (state : State) : Result unit * State :=
  match currentThreadId state with
  | None => (Ok tt, state)
  | Some threadId' =>
      if negb (truthy threadId') then (Ok tt, state)
      else
        match deleted with
        | Throw e => (Throw e, state)
        | Ok _ =>
            let state1 :=
              pruneBranchSelections
                (mkState (filter (λ t, id t ≠ threadItemId) (threadItems state))
                         (branchSelections state) (currentThreadId state)) in
            match remainingItems with
            | Throw e => (Throw e, state1)
            | Ok (S _) => (Ok tt, state1)
            | Ok O =>
                match threadDeleted with
                | Throw e => (Throw e, state1)
                | Ok _ =>
                    (Ok tt,
                     mkState (threadItems state1) (branchSelections state1)
                       (head (filter (λ t, t ≠ threadId') threads)))
                end
            end
        end
  end.


(** *** Batched persistence

    [batchUpdateQueue] holds the latest version of every item waiting to be
    written; [timeoutId] is the time at which the pending timer fires.  The
    durable store is observed through [bulkPuts], the calls of
    [db.threadItems.bulkPut] with the time of each. *)

Definition DB_UPDATE_THROTTLE : Z := 1000.
Definition BATCH_PROCESS_INTERVAL : Z := 500.

Record BatchUpdateQueue : Type := mkBatchUpdateQueue {
  items : list (string * ThreadItem);
  timeoutId : option Z;
}.

Record Env : Type := mkEnv {
  state : State;
  batchUpdateQueue : BatchUpdateQueue;
  bulkPuts : list (Z * list ThreadItem);
  lastItemUpdateTime : gmap string Z;
}.

(** [map.set(key, value)] on a [Map] kept in insertion order. *)
Fixpoint mapSet {A} (key : string) (value : A) (entries : list (string * A))
  : list (string * A) :=
  match entries with
  | [] => [(key, value)]
  | (k, v) :: rest =>
      if bool_decide (k = key) then (k, value) :: rest
      else (k, v) :: mapSet key value rest
  end.

(** [processBatchUpdate] at time [now]. *)
Definition processBatchUpdate (now : Z) (env : Env) : Env :=
  match items (batchUpdateQueue env) with
  | [] => env
  | _ :: _ =>
      let itemsToUpdate := map snd (items (batchUpdateQueue env)) in
      mkEnv (state env)
            (mkBatchUpdateQueue [] (timeoutId (batchUpdateQueue env)))
            (bulkPuts env ++ [(now, itemsToUpdate)])
            (foldl (λ times item, <[id item := now]> times) (lastItemUpdateTime env)
                   itemsToUpdate)
  end.

(** The callback of the timer set by [queueThreadItemForUpdate]. *)
Definition batchTimerFires (now : Z) (env : Env) : Env :=
  let env' := processBatchUpdate now env in
  mkEnv (state env') (mkBatchUpdateQueue (items (batchUpdateQueue env')) None)
        (bulkPuts env') (lastItemUpdateTime env').

(** The timers that are due run before the code that executes at [now]. *)
Definition runTimers (now : Z) (env : Env) : Env :=
  match timeoutId (batchUpdateQueue env) with
  | Some due => if due <=? now then batchTimerFires due env else env
  | None => env
  end.

(** [queueThreadItemForUpdate] at time [now]. *)
Definition queueThreadItemForUpdate (now : Z) (threadItem : ThreadItem) (env : Env) : Env :=
  let normalized := ensureBranchRootId threadItem None in
  let queue := batchUpdateQueue env in
  mkEnv (state env)
        (mkBatchUpdateQueue
           (mapSet (id normalized) normalized (items queue))
           (match timeoutId queue with
            | Some due => Some due
            | None => Some (now + BATCH_PROCESS_INTERVAL)
            end))
        (bulkPuts env) (lastItemUpdateTime env).

(** [{ ...existingItem, ...threadItem, threadId, updatedAt: new Date() }] *)
Definition mergeIntoExisting (now : Z) (threadId' : string) (existingItem : ThreadItem)
    (threadItem : PartialThreadItem) : ThreadItem :=
  mkThreadItem
    (default (id existingItem) (p_id threadItem))
    threadId'
    (default (parentId existingItem) (p_parentId threadItem))
    (default (branchRootId existingItem) (p_branchRootId threadItem))
    (default (createdAt existingItem) (p_createdAt threadItem))
    now
    (default (answer existingItem) (p_answer threadItem))
    (default (thinkingProcess existingItem) (p_thinkingProcess threadItem))
    (p_props threadItem ∪ props existingItem).

(** [{ id: threadItem.id, threadId, createdAt: new Date(),
       updatedAt: new Date(), ...threadItem }] *)
Definition newFromPartial (now : Z) (threadId' itemId : string)
    (threadItem : PartialThreadItem) : ThreadItem :=
  mkThreadItem
    itemId
    (default threadId' (p_threadId threadItem))
    (default None (p_parentId threadItem))
    (default None (p_branchRootId threadItem))
    (default now (p_createdAt threadItem))
    (default now (p_updatedAt threadItem))
    (default None (p_answer threadItem))
    (default None (p_thinkingProcess threadItem))
    (p_props threadItem).

(** [updateThreadItem] at time [now]. *)
Definition updateThreadItem (now : Z) (threadId' : string) (threadItem : PartialThreadItem)
    (env : Env) : Env :=
  match p_id threadItem with
  | None => env
  | Some itemId =>
      if negb (truthy itemId) then env
      else if negb (truthy threadId') then env
      else
        let existingItem :=
          find (λ t, bool_decide (id t = itemId)) (threadItems (state env)) in
        let updatedItem :=
          ensureBranchRootId
            (match existingItem with
             | Some existing => mergeIntoExisting now threadId' existing threadItem
             | None => newFromPartial now threadId' itemId threadItem
             end)
            (orStr (existingItem ≫= branchRootId) (default None (p_branchRootId threadItem))) in
        let state' :=
          pruneBranchSelections
            (mkState (replaceOrPush itemId updatedItem (threadItems (state env)))
                     (branchSelections (state env)) (currentThreadId (state env))) in
        queueThreadItemForUpdate now updatedItem
          (mkEnv state' (batchUpdateQueue env) (bulkPuts env) (lastItemUpdateTime env))
  end.

(** ** The event loop of [runAgent] *)

Definition EVENT_TYPES : list string :=
  ["steps"; "sources"; "answer"; "error"; "status"; "suggestions";
   "toolCalls"; "toolResults"; "object"; "metrics"].

Definition DB_UPDATE_INTERVAL : Z := 1000.

Record AgentState : Type := mkAgentState {
  threadItemMap : gmap string ThreadItem;
  lastDbUpdate : Z;
  env : Env;
}.

(** [typeof v === 'number' ? v : fallback] *)
Definition numberOr (v fallback : JsValue) : JsValue :=
  match v with
  | JNum _ => v
  | _ => fallback
  end.

Definition prevProp (prevItem : option ThreadItem) (key : string) : JsValue :=
  match prevItem with
  | Some item => default JUndefined (props item !! key)
  | None => JUndefined
  end.

(** The metadata of the updated item. *)
Definition nextMetadataOf (prevItem : option ThreadItem) (eventData : EventData) : JsValue :=
  let previous :=
    match prevProp prevItem "metadata" with
    | JObj fields => fields
    | _ => []
    end in
  let requestedMode := JsVal.getProp (ev_props eventData) "requestedMode" in
  let modeSelectionReason := JsVal.getProp (ev_props eventData) "modeSelectionReason" in
  let nextMetadata1 :=
    if JsVal.isTruthy requestedMode
    then mapSet "requestedMode" requestedMode previous else previous in
  let nextMetadata :=
    if JsVal.isTruthy modeSelectionReason
    then mapSet "selectionReason" modeSelectionReason nextMetadata1 else nextMetadata1 in
  match nextMetadata with
  | [] => prevProp prevItem "metadata"
  | _ :: _ => JObj nextMetadata
  end.

(** The item that [handleThreadItemUpdate] stores in [threadItemMap]. *)
Definition updatedItemOf (now : Z) (prevItem : option ThreadItem) (threadId' threadItemId : string)
    (eventType : string) (eventData : EventData) (parentThreadItemId : option string)
  : ThreadItem :=
  let incomingAnswer := default [] (ev_answer eventData) in
  let incomingMetrics := default [] (ev_metrics eventData) in
  let eventProp := JsVal.getProp (ev_props eventData) in
  let common : gmap string JsValue :=
    <["metadata" := nextMetadataOf prevItem eventData]>
      (<["object" := JsVal.or (eventProp "object") (prevProp prevItem "object")]>
         (<["mode" := JsVal.or (eventProp "mode") (prevProp prevItem "mode")]>
            (<["query" := JsVal.or (JsVal.or (eventProp "query") (prevProp prevItem "query"))
                                   (JStr EmptyString)]>
               (default ∅ (props <$> prevItem))))) in
  let isAnswer := bool_decide (eventType = "answer") in
  let isMetrics := bool_decide (eventType = "metrics") in
  mkThreadItem
    threadItemId
    threadId'
    (orStr parentThreadItemId (prevItem ≫= parentId))
    (Some (default (default threadItemId (orStr parentThreadItemId None))
                   (orStr (prevItem ≫= branchRootId) None)))
    (default now (createdAt <$> prevItem))
    now
    (if isAnswer then Some (nextAnswer (prevItem ≫= answer) incomingAnswer)
     else prevItem ≫= answer)
    (if isAnswer then
       (if isNonBlankString (JsVal.getProp incomingAnswer "thinkingProcess")
        then Some (JsVal.toStr (JsVal.getProp incomingAnswer "thinkingProcess"))
        else prevItem ≫= thinkingProcess)
     else prevItem ≫= thinkingProcess)
    (if isAnswer then common
     else if isMetrics then
       <["generationDurationMs" :=
           numberOr (JsVal.getProp incomingMetrics "durationMs")
                    (prevProp prevItem "generationDurationMs")]>
         (<["tokensUsed" :=
              numberOr (JsVal.getProp incomingMetrics "totalTokens")
                       (prevProp prevItem "tokensUsed")]> common)
     else <[eventType := eventProp eventType]> common).

(** [{ ...updatedItem, persistToDB: true }] *)
Definition withPersistToDB (item : ThreadItem) : PartialThreadItem :=
  mkPartialThreadItem (Some (id item)) (Some (threadId item)) (Some (parentId item))
    (Some (branchRootId item)) (Some (createdAt item)) (Some (updatedAt item))
    (Some (answer item)) (Some (thinkingProcess item))
    (<["persistToDB" := JBool true]> (props item)).

(** [handleThreadItemUpdate] at time [now]. *)
Definition handleThreadItemUpdate (now : Z) (threadId' threadItemId eventType : string)
    (eventData : EventData) (parentThreadItemId : option string) (shouldPersistToDB : bool)
    (agent : AgentState) : AgentState :=
  let prevItem := threadItemMap agent !! threadItemId in
  let updatedItem :=
    updatedItemOf now prevItem threadId' threadItemId eventType eventData parentThreadItemId in
  mkAgentState (<[threadItemId := updatedItem]> (threadItemMap agent))
               (lastDbUpdate agent)
               (updateThreadItem now threadId' (withPersistToDB updatedItem) (env agent)).

(** A frame read from the response: the time at which the loop handles it,
    its [event] line, and the fields of its parsed [data]. *)
Record StreamEvent : Type := mkStreamEvent {
  se_time : Z;
  currentEvent : string;
  data_threadId : string;
  data_threadItemId : string;
  data_parentThreadItemId : option string;
  data_type : string;
  data_status : string;
  data_error : string;
  data : EventData;
}.

(** [{ id, status, error?, persistToDB: true }] *)
Definition statusUpdate (itemId status' : string) (error : option string) : PartialThreadItem :=
  mkPartialThreadItem (Some itemId) None None None None None None None
    (<["persistToDB" := JBool true]>
       (match error with
        | Some message => <["error" := JStr message]> {["status" := JStr status']}
        | None => {["status" := JStr status']}
        end)).

(** One parsed frame in the loop of [runAgent]; the timers that were due
    have run before it. *)
Definition handleStreamEvent (ev : StreamEvent) (agent0 : AgentState) : AgentState :=
  let now := se_time ev in
  let agent :=
    mkAgentState (threadItemMap agent0) (lastDbUpdate agent0) (runTimers now (env agent0)) in
  if bool_decide (currentEvent ev ∈ EVENT_TYPES)
     && truthy (data_threadId ev) && truthy (data_threadItemId ev) then
    let shouldPersistToDB := bool_decide (DB_UPDATE_INTERVAL ≤ now - lastDbUpdate agent) in
    let agent' :=
      handleThreadItemUpdate now (data_threadId ev) (data_threadItemId ev) (currentEvent ev)
        (data ev) (data_parentThreadItemId ev) shouldPersistToDB agent in
    if shouldPersistToDB
    then mkAgentState (threadItemMap agent') now (env agent')
    else agent'
  else if bool_decide (currentEvent ev = "done") && bool_decide (data_type ev = "done") then
    let map' :=
      if truthy (data_threadItemId ev)
      then delete (data_threadItemId ev) (threadItemMap agent)
      else threadItemMap agent in
    let identified := truthy (data_threadId ev) && truthy (data_threadItemId ev) in
    let env' :=
      if negb identified then env agent
      else if bool_decide (data_status ev = "error") then
        updateThreadItem now (data_threadId ev)
          (statusUpdate (data_threadItemId ev) "ERROR"
             (Some (if truthy (data_error ev) then data_error ev
                    else "Something went wrong. Please try again.")))
          (env agent)
      else if bool_decide (data_status ev = "aborted") then
        updateThreadItem now (data_threadId ev)
          (statusUpdate (data_threadItemId ev) "ABORTED" None) (env agent)
      else if bool_decide (data_status ev = "complete") then
        updateThreadItem now (data_threadId ev)
          (statusUpdate (data_threadItemId ev) "COMPLETED" None) (env agent)
      else env agent in
    mkAgentState map' (lastDbUpdate agent) env'
  else agent.

(** The frames of one response handled in order; [lastDbUpdate] starts at
    the time [start] at which the loop is entered. *)
Definition runAgentLoop (start : Z) (events : list StreamEvent) (threadItemMap0 : gmap string ThreadItem)
    (env0 : Env) : AgentState :=
  foldl (λ agent ev, handleStreamEvent ev agent)
        (mkAgentState threadItemMap0 start env0) events.

(** The [answer] events of one thread item handled in order: each with
    the time at which it is handled, its data, its parent id and the
    persistence flag computed by the loop. *)
Definition applyAnswerEvents (threadId' threadItemId : string)
    (events : list (Z * EventData * option string * bool)) (agent : AgentState) : AgentState :=
  foldl (λ a ev,
           handleThreadItemUpdate ev.1.1.1 threadId' threadItemId "answer" ev.1.1.2 ev.1.2 ev.2 a)
        agent events.

(** *** The merge rule in the words of the specification

    A snapshot is a [finalText], else a [fullText], that is a string with
    something other than white space in it; the delta is the incoming
    [text]. *)
Definition snapshotOf (incoming : list (string * JsValue)) : option string :=
  match JsVal.getProp incoming "finalText", JsVal.getProp incoming "fullText" with
  | JStr final, full =>
      if Js.trimNonEmpty final then Some final
      else match full with
           | JStr full' => if Js.trimNonEmpty full' then Some full' else None
           | _ => None
           end
  | _, JStr full' => if Js.trimNonEmpty full' then Some full' else None
  | _, _ => None
  end.

Definition deltaOf (incoming : list (string * JsValue)) : string :=
  match JsVal.getProp incoming "text" with
  | JUndefined | JNull => EmptyString
  | v => JsVal.toStr v
  end.

Definition mergedText (accumulated : string) (incoming : list (string * JsValue)) : string :=
  match snapshotOf incoming with
  | Some snapshot => snapshot
  | None => accumulated +:+ deltaOf incoming
  end.

(** [s] occurs in [t]: the reading of [contains] that does not go through
    [Js.includes]. *)
Definition occursIn (w s : string) : Prop := ∃ pre post, s = pre +:+ w +:+ post.

(** The provider other than [provider]. *)
Definition otherProvider (provider : ProviderEnumType) : ProviderEnumType :=
  match provider with
  | GOOGLE => OPENROUTER
  | OPENROUTER => GOOGLE
  end.

(** The selections of [state] are consistent with its branch groups: every
    entry names a member of the group of its key, and every group has an
    entry. *)
Definition selectionsConsistent (state : State) : Prop :=
  let groups := buildBranchGroups (threadItems state) in
  (∀ rootId selectedId,
      branchSelections state !! rootId = Some selectedId →
      ∃ group item, groups !! rootId = Some group ∧ item ∈ group ∧ id item = selectedId)
  ∧ (∀ rootId group,
      groups !! rootId = Some group → group ≠ [] →
      is_Some (branchSelections state !! rootId)).


(** ** Data of the scenarios *)

Definition samplePayload : Payload :=
  mkPayload "answer" (Some "thread-1") (Some "item-1") None JUndefined [].

(** The store and the queue before anything happened. *)
Definition emptyEnv : Env :=
  mkEnv (mkState [] ∅ None) (mkBatchUpdateQueue [] None) [] ∅.

(** The reducer at the time [start], with no item in progress. *)
Definition freshAgent (start : Z) : AgentState := mkAgentState ∅ start emptyEnv.

(** The data of an [answer] event whose [answer] object has the given
    properties. *)
Definition answerData (fields : list (string * JsValue)) : EventData :=
  mkEventData (Some fields) None [].

(** The answer that the reducer holds for an item. *)
Definition storedAnswer (agent : AgentState) (threadItemId : string) : option Answer :=
  (threadItemMap agent !! threadItemId) ≫= answer.

(** An [answer] frame for the item [item-1] of the thread [thread-1],
    handled at [time], carrying the delta [delta]. *)
Definition answerFrame (time : Z) (delta : string) : StreamEvent :=
  mkStreamEvent time "answer" "thread-1" "item-1" None EmptyString EmptyString EmptyString
    (answerData [("text", JStr delta)]).

(** What [buildBranchGroups] guarantees of the groups of [items]. *)
Definition groupsOf (items : list ThreadItem) (groups : gmap string (list ThreadItem)) : Prop :=
  (∀ rootId group, groups !! rootId = Some group →
     group ≠ []
     ∧ group = filter (λ x, resolveBranchRootId x = rootId) items
     ∧ ∀ x, x ∈ group ↔ x ∈ items ∧ resolveBranchRootId x = rootId)
  ∧ (∀ x, x ∈ items → is_Some (groups !! resolveBranchRootId x)).

(** The selection of [rootId] after the first loop of the pruning. *)
Definition prunedValue (groups : gmap string (list ThreadItem)) (validIds : gset string)
    (entry : string * string) (current : option string) : option string :=
  let hasSelected :=
    match groups !! entry.1 with
    | Some group => existsb (λ item, bool_decide (id item = entry.2)) group
    | None => false
    end in
  if hasSelected && bool_decide (entry.2 ∈ validIds) then current
  else id <$> (groups !! entry.1 ≫= last).

(** The selection of [rootId] after the second loop of the pruning. *)
Definition defaultedValue (entry : string * list ThreadItem) (current : option string)
  : option string :=
  match last entry.2 with
  | None => current
  | Some item =>
      if negb (truthy (default EmptyString current)) then Some (id item) else current
  end.

(** A thread item of the thread [thread-1] with no content. *)
Definition sampleItem (itemId : string) (parent root : option string) (created : Z)
  : ThreadItem :=
  mkThreadItem itemId "thread-1" parent root created created None None ∅.

(** Two alternative replies to [q1], the first one selected, and a selection
    that names a deleted item. *)
Definition sampleState : State :=
  mkState
    [ sampleItem "a1" (Some "q1") None 10; sampleItem "a2" (Some "q1") None 20;
      sampleItem "b1" (Some "q2") None 30 ]
    {[ "q1" := "a1"; "q2" := "gone"; "q9" := "a1" ]}
    (Some "thread-1").

(** Events of any type for one thread item handled in order: each with the
    time at which it is handled, its type, its data, its parent id and the
    persistence flag. *)
Definition applyEvents (threadId' threadItemId : string)
    (events : list (Z * string * EventData * option string * bool)) (agent : AgentState)
  : AgentState :=
  foldl (λ a ev,
           handleThreadItemUpdate ev.1.1.1.1 threadId' threadItemId ev.1.1.1.2 ev.1.1.2
             ev.1.2 ev.2 a)
        agent events.

(** [map.get(key)] on a [Map] kept in insertion order. *)
Definition mapGet {A} (key : string) (entries : list (string * A)) : option A :=
  snd <$> find (λ entry, bool_decide (entry.1 = key)) entries.

(** The write queue is well formed: one pending version per item id, filed
    under that id, and a flush timer whenever something waits. *)
Definition queueOk (queue : BatchUpdateQueue) : Prop :=
  NoDup (items queue).*1
  ∧ (∀ key item, (key, item) ∈ items queue → id item = key)
  ∧ (items queue ≠ [] → is_Some (timeoutId queue)).

(** ** The keys of the user ([api-keys.store.ts]) *)

Record ApiKeys : Type := mkApiKeys {
  GEMINI_API_KEY : option string;
  JINA_API_KEY : option string;
  LANGSEARCH_API_KEY : option string;
  SERPER_API_KEY : option string;
  OPENROUTER_API_KEY : option string;
}.

(** [!!key] *)
Definition hasKey (key : option string) : bool :=
  match key with
  | Some s => truthy s
  | None => false
  end.

(** [hasApiKeyForChatMode] *)
Definition hasApiKeyForChatMode (apiKeys : ApiKeys) (chatMode : ChatMode) : bool :=
  let hasGeminiKey := hasKey (GEMINI_API_KEY apiKeys) in
  let hasOpenRouterKey := hasKey (OPENROUTER_API_KEY apiKeys) in
  let hasSearchKey := hasKey (LANGSEARCH_API_KEY apiKeys) || hasKey (SERPER_API_KEY apiKeys) in
  match chatMode with
  | Deep | Pro => hasGeminiKey && hasSearchKey
  | GEMINI_2_5_FLASH | GEMINI_2_5_PRO | IMAGE_GENERATION => hasGeminiKey
  | LONGCAT_FLASH_CHAT | GLM_4_5_AIR | DEEPSEEK_CHAT_V3_1 | DEEPSEEK_R1
  | GPT_OSS_20B | DOLPHIN_MISTRAL_24B_VENICE => hasOpenRouterKey
  | _ => false
  end.

(** ** Mode resolution on submit ([handleSubmit], [agent-provider.tsx]) *)

Definition GEMINI_CHAT_MODES : list ChatMode := [GEMINI_2_5_FLASH; GEMINI_2_5_PRO].

Definition OPENROUTER_CHAT_MODES : list ChatMode :=
  [GLM_4_5_AIR; DEEPSEEK_CHAT_V3_1; DEEPSEEK_R1; LONGCAT_FLASH_CHAT; GPT_OSS_20B;
   DOLPHIN_MISTRAL_24B_VENICE].

(** The [resolvedMode] and [modelSelectionReason] that [handleSubmit]
    computes from the requested mode, the query, whether an image is
    attached, and the keys of the user. *)
Definition resolveSubmittedMode (currentYear : Z) (userKeysSnapshot : ApiKeys)
    (requestedMode : ChatMode) (query : string) (hasImage : bool)
  : ChatMode * option string :=
  let hasUserGeminiKey := hasKey (GEMINI_API_KEY userKeysSnapshot) in
  let hasUserOpenRouterKey := hasKey (OPENROUTER_API_KEY userKeysSnapshot) in
  if bool_decide (requestedMode = Auto) then
    let resolvedMode := selectModelForQuery currentYear query hasImage in
    let resolvedUsesGemini := bool_decide (resolvedMode ∈ GEMINI_CHAT_MODES) in
    let resolvedUsesOpenRouter := bool_decide (resolvedMode ∈ OPENROUTER_CHAT_MODES) in
    if resolvedUsesGemini && negb hasUserGeminiKey && hasUserOpenRouterKey then
      let fallback := selectOpenRouterFallback currentYear query in
      (fallback,
       Some (getModelSelectionReason query fallback +:+ " • Using your OpenRouter API key"))
    else if resolvedUsesOpenRouter && negb hasUserOpenRouterKey && hasUserGeminiKey then
      let fallback := selectGeminiFallback query hasImage in
      (fallback,
       Some (getModelSelectionReason query fallback +:+ " • Using your Gemini API key"))
    else (resolvedMode, Some (getModelSelectionReason query resolvedMode))
  else (requestedMode, None).

(** ** Mode resolution in [executeStream] (completion route)

    The [resolvedMode] and [modeSelectionReason] with which the workflow is
    started, from the [mode], [requestedMode], [modeSelectionReason] and
    [prompt] of the request and whether its last message holds an image;
    [Throw] is the error that [executeStream] catches and reports in a
    [done] frame. *)
Definition resolveStreamMode (currentYear : Z) (getProviderApiKey : ProviderEnumType → string)
    (dataMode : ChatMode) (dataRequestedMode : option ChatMode)
    (dataModeSelectionReason : option string) (prompt : string) (hasImageAttachment : bool)
  : Result (ChatMode * option string) :=
  let requestedMode := default dataMode dataRequestedMode in
  let resolvedMode :=
    if bool_decide (requestedMode = Auto) || bool_decide (dataMode = Auto)
    then selectModelForQuery currentYear prompt hasImageAttachment
    else dataMode in
  let finish (resolvedMode : ChatMode) (fallbackNote : option string) :=
    match orStr fallbackNote None with
    | Some note =>
        Ok (resolvedMode, Some (getModelSelectionReason prompt resolvedMode +:+ " • " +:+ note))
    | None =>
        if negb (hasKey dataModeSelectionReason) || bool_decide (requestedMode = Auto)
        then Ok (resolvedMode, Some (getModelSelectionReason prompt resolvedMode))
        else Ok (resolvedMode, dataModeSelectionReason)
    end in
  if bool_decide (requestedMode = Auto) then
    match ensureProviderAvailability currentYear getProviderApiKey resolvedMode prompt
            hasImageAttachment with
    | Throw e => Throw e
    | Ok fallback =>
        if av_changed fallback then finish (av_mode fallback) (av_message fallback)
        else finish resolvedMode None
    end
  else finish resolvedMode None.

(** ** Truncation of search results ([search-helpers.ts])

    Counts of characters and of results are natural numbers.  The
    thresholds [maxChars * 0.6] and [maxChars * 0.5] are computed and
    compared in binary64 arithmetic, as JavaScript does. *)

Definition floatOfZ (n : Z) : PrimFloat.float := PrimFloat.of_uint63 (Uint63.of_Z n).

(** The binary64 numbers written [0.6] and [0.5]: the correctly rounded
    quotients of 6 by 10 and of 1 by 2. *)
Definition sixTenths : PrimFloat.float := PrimFloat.div (floatOfZ 6) (floatOfZ 10).
Definition oneHalf : PrimFloat.float := PrimFloat.div (floatOfZ 1) (floatOfZ 2).

(** [index > maxChars * factor] *)
Definition exceedsShare (index : Z) (maxChars : nat) (factor : PrimFloat.float) : bool :=
  if index <? 0 then false
  else
    PrimFloat.ltb (PrimFloat.mul (floatOfZ (Z.of_nat maxChars)) factor) (floatOfZ index).

Module Str.

(** [s.slice(0, n)] *)
Fixpoint slice (s : string) (n : nat) : string :=
  match n, s with
  | S n', String c s' => String c (slice s' n')
  | _, _ => EmptyString
  end.

Fixpoint trimStart (s : string) : string :=
  match s with
  | String c s' => if Js.isSpace c then trimStart s' else s
  | EmptyString => EmptyString
  end.

Fixpoint trimEnd (s : string) : string :=
  match s with
  | String c s' =>
      match trimEnd s' with
      | EmptyString => if Js.isSpace c then EmptyString else String c EmptyString
      | rest => String c rest
      end
  | EmptyString => EmptyString
  end.

(** [s.trim()] *)
Definition trim (s : string) : string := trimEnd (trimStart s).

(** [s.lastIndexOf(w)] for a non-empty [w], where [index] is the position
    of the head of [s]; [-1] when [w] does not occur. *)
Fixpoint lastIndexOfFrom (w s : string) (index : Z) : Z :=
  match s with
  | EmptyString => -1
  | String _ s' =>
      let later := lastIndexOfFrom w s' (index + 1) in
      if 0 <=? later then later
      else if Js.startsWith w s then index else -1
  end.

Definition lastIndexOf (s w : string) : Z := lastIndexOfFrom w s 0.

End Str.

Definition DEFAULT_MAX_RESULTS : nat := 5.
Definition DEFAULT_MAX_CHARS_PER_RESULT : nat := 3500.
Definition DEFAULT_MAX_CONTENT_ITEMS : nat := 6.
Definition DEFAULT_MAX_CHARS_PER_ITEM : nat := 4000.

(** [truncateText] *)
Definition truncateText (text : string) (maxChars : nat) : string :=
  if negb (truthy text) then EmptyString
  else if (String.length text <=? maxChars)%nat then text
  else
    let truncated := Str.slice text maxChars in
    let lastParagraphBreak := Str.lastIndexOf truncated (JsVal.nl +:+ JsVal.nl) in
    if exceedsShare lastParagraphBreak maxChars sixTenths then
      Str.trim (Str.slice truncated (Z.to_nat lastParagraphBreak))
      +:+ JsVal.nl +:+ JsVal.nl +:+ "..."
    else
      let lastSentenceBreak :=
        Z.max (Z.max (Str.lastIndexOf truncated ". ") (Str.lastIndexOf truncated "! "))
              (Str.lastIndexOf truncated "? ") in
      if exceedsShare lastSentenceBreak maxChars oneHalf then
        Str.trim (Str.slice truncated (Z.to_nat (lastSentenceBreak + 1)))
        +:+ JsVal.nl +:+ JsVal.nl +:+ "..."
      else Str.trim truncated +:+ "...".

Record ContentItem : Type := mkContentItem {
  title : string;
  link : string;
  content : string;
}.

(** [prepareWebPageContent] with the options [maxItems] and
    [maxCharsPerItem]; [None] is an option left out. *)
Definition prepareWebPageContent (contentItems : list ContentItem)
    (maxItems maxCharsPerItem : option nat) : list ContentItem :=
  map (λ item,
         mkContentItem (title item) (link item)
           (truncateText (content item)
              (default DEFAULT_MAX_CHARS_PER_ITEM maxCharsPerItem)))
      (take (default DEFAULT_MAX_CONTENT_ITEMS maxItems)
            (filter (λ item, Js.trimNonEmpty (content item) = true) contentItems)).

(** A result of the page reader: the outcome of the fetch and the page as
    markdown, when it has one, and the address of the page. *)
Record TReaderResult : Type := mkReaderResult {
  success : option bool;
  markdown : option string;
  url : string;
}.

(** [prepareReaderResults] with the options [maxResults],
    [maxCharsPerResult] and [requireSuccess]. *)
Definition prepareReaderResults (results : list TReaderResult)
    (maxResults maxCharsPerResult : option nat) (requireSuccess : option bool)
  : list TReaderResult :=
  map (λ result,
         mkReaderResult (success result)
           (Some (truncateText (default EmptyString (markdown result))
                    (default DEFAULT_MAX_CHARS_PER_RESULT maxCharsPerResult)))
           (url result))
      (take (default DEFAULT_MAX_RESULTS maxResults)
            (filter (λ result,
                       ¬ (default true requireSuccess = true ∧ success result = Some false)
                       ∧ hasKey (markdown result) = true)
                    results)).

(** ** Properties *)

#[local] Set Warnings "-clear-no-such-hyp".

(** *** String primitives *)

Lemma append_cons (c : ascii) (a b : string) : String c a +:+ b = String c (a +:+ b).
Proof. reflexivity. Qed.

Lemma append_nil_l (b : string) : EmptyString +:+ b = b.
Proof. reflexivity. Qed.

Lemma append_nil_r (s : string) : s +:+ EmptyString = s.
Proof. induction s as [|c s IH]; [done | by rewrite append_cons, IH]. Qed.

Lemma append_assoc (a b c : string) : (a +:+ b) +:+ c = a +:+ (b +:+ c).
Proof. induction a as [|x a IH]; [done | by rewrite !append_cons, IH]. Qed.

Lemma startsWith_spec (w s : string) :
  Js.startsWith w s = true ↔ ∃ post, s = w +:+ post.
Proof.
  revert s. induction w as [|a w IH]; intros s; simpl.
  - split; [intros _; by exists s | done].
  - destruct s as [|b s].
    + split; [done | intros [post H]; discriminate].
    + destruct (decide (a = b)) as [->|Hne].
      * rewrite IH. split; intros [post H]; exists post.
        -- by rewrite append_cons, H.
        -- rewrite append_cons in H. congruence.
      * split; [done | intros [post H]; rewrite append_cons in H; congruence].
Qed.

Lemma includes_spec (s w : string) : Js.includes s w = true ↔ occursIn w s.
Proof.
  unfold occursIn. induction s as [|c s IH].
  - simpl. rewrite orb_false_r, startsWith_spec. split.
    + intros [post H]. exists EmptyString, post. done.
    + intros [pre [post H]]. destruct pre; [by exists post | discriminate].
  - change (Js.includes (String c s) w)
      with (Js.startsWith w (String c s) || Js.includes s w).
    rewrite orb_true_iff, startsWith_spec, IH. split.
    + intros [[post H] | [pre [post H]]].
      * exists EmptyString, post. done.
      * exists (String c pre), post. by rewrite append_cons, H.
    + intros [pre [post H]]. destruct pre as [|c' pre].
      * left. by exists post.
      * right. exists pre, post. rewrite append_cons in H. congruence.
Qed.

Lemma filter_two_distinct {A} (P : A → Prop) `{∀ x, Decision (P x)} (l : list A) (a b : A) :
  a ∈ l → b ∈ l → a ≠ b → P a → P b → (2 ≤ length (filter P l))%nat.
Proof.
  intros Ha Hb Hne HPa HPb.
  assert (Ha' : a ∈ filter P l) by (apply list_elem_of_filter; done).
  assert (Hb' : b ∈ filter P l) by (apply list_elem_of_filter; done).
  destruct (filter P l) as [|x [|y l']]; simpl; [| | lia].
  - by apply elem_of_nil in Ha'.
  - apply list_elem_of_singleton in Ha', Hb'. congruence.
Qed.

(** *** The mode resolver *)

Lemma consume_weaken (alt1 alt2 : list Js.charClass) (lastWord : bool) (s : string)
    (r : bool * string) :
  Forall2 (λ p q : Js.charClass, ∀ c, p c = true → q c = true) alt1 alt2 →
  Js.consume alt1 lastWord s = Some r → Js.consume alt2 lastWord s = Some r.
Proof.
  intros Hall. revert lastWord s.
  induction Hall as [|p q alt1 alt2 Hpq _ IH]; intros lastWord s; simpl; [done |].
  destruct s as [|c s]; [done |].
  destruct (p c) eqn:Hp; [| done].
  rewrite (Hpq c Hp). apply IH.
Qed.

Lemma matchHere_weaken (alt1 alt2 : list Js.charClass) (prevWord : bool) (s : string) :
  Forall2 (λ p q : Js.charClass, ∀ c, p c = true → q c = true) alt1 alt2 →
  Js.matchHere prevWord alt1 s = true → Js.matchHere prevWord alt2 s = true.
Proof.
  intros Hall. unfold Js.matchHere.
  destruct (xorb prevWord (Js.headIsWord s)); [simpl | done].
  destruct (Js.consume alt1 prevWord s) as [r|] eqn:Hc; [| done].
  by rewrite (consume_weaken _ _ _ _ _ Hall Hc).
Qed.

Lemma scan_ext (alts1 alts2 : list (list Js.charClass)) :
  (∀ prevWord s, existsb (λ alt, Js.matchHere prevWord alt s) alts1
                 = existsb (λ alt, Js.matchHere prevWord alt s) alts2) →
  ∀ s prevWord, Js.scan alts1 prevWord s = Js.scan alts2 prevWord s.
Proof.
  intros Hext s. induction s as [|c s IH]; intros prevWord; simpl.
  - by rewrite Hext.
  - by rewrite Hext, IH.
Qed.

Lemma lit_implies (a : ascii) (q : Js.charClass) :
  q a = true → ∀ c, Js.lit a c = true → q c = true.
Proof. intros Hq c Hc. unfold Js.lit in Hc. apply bool_decide_eq_true in Hc. by subst. Qed.

Lemma recentYearMentions_twenties (currentYear : Z) (query : string) :
  2021 ≤ currentYear ≤ 2029 →
  recentYearMentions currentYear query = Js.scan [decadeAlternative] false query.
Proof.
  intros Hrange. unfold recentYearMentions. apply scan_ext. intros prevWord s.
  assert (Hsub : ∀ alt, alt ∈ [Js.classes Js.lit (Js.numberToString currentYear);
                                Js.classes Js.lit (Js.numberToString (currentYear - 1))] →
                 Js.matchHere prevWord alt s = true →
                 Js.matchHere prevWord decadeAlternative s = true).
  { intros alt Halt. apply matchHere_weaken.
    assert (Hy : currentYear = 2021 ∨ currentYear = 2022 ∨ currentYear = 2023
                 ∨ currentYear = 2024 ∨ currentYear = 2025 ∨ currentYear = 2026
                 ∨ currentYear = 2027 ∨ currentYear = 2028 ∨ currentYear = 2029) by lia.
    destruct Hy as [-> | [-> | [-> | [-> | [-> | [-> | [-> | [-> | ->]]]]]]]];
      apply list_elem_of_In in Halt; simpl in Halt;
      destruct Halt as [<- | [<- | []]];
      vm_compute Js.numberToString; unfold decadeAlternative; simpl;
      repeat (constructor; [by apply lit_implies |]); constructor. }
  unfold recentYearAlternatives. fold decadeAlternative. simpl.
  destruct (Js.matchHere prevWord (Js.classes Js.lit (Js.numberToString currentYear)) s) eqn:H1.
  { rewrite (Hsub _ (list_elem_of_here _ _) H1). by rewrite orb_true_r. }
  destruct (Js.matchHere prevWord
              (Js.classes Js.lit (Js.numberToString (currentYear - 1))) s) eqn:H2.
  { rewrite (Hsub _ (list_elem_of_further _ _ _ (list_elem_of_here _ _)) H2).
    by rewrite orb_true_r. }
  done.
Qed.

(** C7, as stated, fails: a query with the two code keywords [bug] and
    [code] and no image attachment that also holds the image word
    [screenshot] is sent to the multimodal mode, because the image test
    comes first. *)
Lemma C7_counterexample_image_word :
  "bug" ∈ codeIndicators ∧ "code" ∈ codeIndicators
  ∧ occursIn "bug" (Js.toLowerCase "fix the bug in the code on this screenshot")
  ∧ occursIn "code" (Js.toLowerCase "fix the bug in the code on this screenshot")
  ∧ selectModelForQuery 2026 "fix the bug in the code on this screenshot" false
    = GEMINI_2_5_FLASH.
Proof.
  split; [unfold codeIndicators; set_solver |].
  split; [unfold codeIndicators; set_solver |].
  split; [apply includes_spec; vm_compute; reflexivity |].
  split; [apply includes_spec; vm_compute; reflexivity |].
  vm_compute. reflexivity.
Qed.

(** C7 (amended): for every calendar year and every query whose lower-cased
    text contains two distinct code keywords, if there is no image
    attachment and no image word matches, [selectModelForQuery] returns
    DeepSeek Chat v3.1. *)
Theorem C7_two_code_keywords_select_deepseek (currentYear : Z) (query w1 w2 : string) :
  w1 ∈ codeIndicators → w2 ∈ codeIndicators → w1 ≠ w2 →
  occursIn w1 (Js.toLowerCase query) → occursIn w2 (Js.toLowerCase query) →
  Js.testWordsCI imageWords query = false →
  selectModelForQuery currentYear query false = DEEPSEEK_CHAT_V3_1.
Proof.
  intros Hw1 Hw2 Hne H1 H2 Himage. unfold selectModelForQuery.
  rewrite Himage. simpl.
  rewrite bool_decide_eq_true_2; [done |].
  unfold score.
  apply (filter_two_distinct _ _ w1 w2); try done; by apply includes_spec.
Qed.

Lemma C7_witness_debug_python :
  selectModelForQuery 2026 "Debug this Python function" false = DEEPSEEK_CHAT_V3_1.
Proof.
  apply (C7_two_code_keywords_select_deepseek 2026 "Debug this Python function"
           "debug" "python").
  - unfold codeIndicators. set_solver.
  - unfold codeIndicators. set_solver.
  - discriminate.
  - apply includes_spec. vm_compute. reflexivity.
  - apply includes_spec. vm_compute. reflexivity.
  - vm_compute. reflexivity.
Defined.

(** C8: for the query of the scenario the resolver selects DeepSeek Chat
    v3.1 in every calendar year, and the reason given for that selection is
    the general one, not the coding one: the reason tests for the substring
    [code] only. *)
Theorem C8_python_bug_query_gets_general_reason (currentYear : Z) :
  selectModelForQuery currentYear "fix this bug in my python function" false
  = DEEPSEEK_CHAT_V3_1
  ∧ getModelSelectionReason "fix this bug in my python function" DEEPSEEK_CHAT_V3_1
    = "Balanced performance for general queries"
  ∧ getModelSelectionReason "fix this bug in my python function" DEEPSEEK_CHAT_V3_1
    ≠ "Optimized for coding tasks".
Proof. split; [| split]; [vm_compute; reflexivity | vm_compute; reflexivity | vm_compute; discriminate]. Qed.

(** C9, as stated, fails: the same query and attachment flag give different
    modes in different calendar years. *)
Lemma C9_counterexample_calendar_year :
  selectModelForQuery 2029 "olympics 2030" false = GEMINI_2_5_FLASH
  ∧ selectModelForQuery 2030 "olympics 2030" false = LONGCAT_FLASH_CHAT.
Proof. split; vm_compute; reflexivity. Qed.

(** C9 (amended): the result is a function of the query, the attachment
    flag and the calendar year; throughout the years 2021 to 2029 it does
    not depend on the year. *)
Theorem C9_same_mode_throughout_the_twenties (year1 year2 : Z) (query : string)
    (hasImage : bool) :
  2021 ≤ year1 ≤ 2029 → 2021 ≤ year2 ≤ 2029 →
  selectModelForQuery year1 query hasImage = selectModelForQuery year2 query hasImage.
Proof.
  intros H1 H2. unfold selectModelForQuery.
  by rewrite (recentYearMentions_twenties year1 query H1),
             (recentYearMentions_twenties year2 query H2).
Qed.

Lemma C9_witness_2024_2027 :
  selectModelForQuery 2024 "what happened in 2026" false
  = selectModelForQuery 2027 "what happened in 2026" false.
Proof.
  apply (C9_same_mode_throughout_the_twenties 2024 2027 "what happened in 2026" false); lia.
Defined.

(** *** Provider availability *)

Lemma getProviderForMode_is_Some (mode : ChatMode) : is_Some (getProviderForMode mode).
Proof. destruct mode; vm_compute; eauto. Qed.

Lemma selectOpenRouterFallback_provider (currentYear : Z) (query : string) :
  getProviderForMode (selectOpenRouterFallback currentYear query) = Some OPENROUTER.
Proof.
  unfold selectOpenRouterFallback.
  repeat match goal with |- context [if ?b then _ else _] => destruct b end; reflexivity.
Qed.

Lemma selectGeminiFallback_provider (query : string) (hasImage : bool) :
  getProviderForMode (selectGeminiFallback query hasImage) = Some GOOGLE.
Proof.
  unfold selectGeminiFallback.
  repeat match goal with |- context [if ?b then _ else _] => destruct b end; reflexivity.
Qed.

(** C6: when the provider of the mode has a key the mode is returned
    unchanged; when it has none and the other provider has one (and the
    request is not an image question to Gemini) a mode of the other provider
    is returned with [changed = true] and a message.  Otherwise the function
    throws, each time an error of the class [Error] with its own message:
    for a Gemini mode with an image attached, for a Gemini mode when
    OpenRouter has no key either, and for an OpenRouter mode when Gemini has
    no key either.  No error it throws is a [MissingProviderKeyError]. *)
Theorem C6_ensureProviderAvailability_cases (currentYear : Z)
    (getProviderApiKey : ProviderEnumType → string) (mode : ChatMode) (query : string)
    (hasImageAttachment : bool) (provider : ProviderEnumType) :
  getProviderForMode mode = Some provider →
  let result :=
    ensureProviderAvailability currentYear getProviderApiKey mode query hasImageAttachment in
  (truthy (getProviderApiKey provider) = true →
     result = Ok (mkAvailability mode false None))
  ∧ (truthy (getProviderApiKey provider) = false →
     truthy (getProviderApiKey (otherProvider provider)) = true →
     (provider = GOOGLE → hasImageAttachment = false) →
     ∃ fallbackMode message,
       result = Ok (mkAvailability fallbackMode true (Some message))
       ∧ getProviderForMode fallbackMode = Some (otherProvider provider))
  ∧ (truthy (getProviderApiKey provider) = false → provider = GOOGLE →
     hasImageAttachment = true →
     result
     = Throw (mkJsError "Error" "Image questions in Auto mode require a configured GEMINI_API_KEY. Please add your Gemini key or remove the image."))
  ∧ (truthy (getProviderApiKey provider) = false → provider = GOOGLE →
     hasImageAttachment = false → truthy (getProviderApiKey OPENROUTER) = false →
     result
     = Throw (mkJsError "Error" "Auto mode needs at least one provider configured. Please set OPENROUTER_API_KEY to enable OpenRouter models or add a personal key in Settings → API Keys."))
  ∧ (truthy (getProviderApiKey provider) = false → provider = OPENROUTER →
     truthy (getProviderApiKey GOOGLE) = false →
     result
     = Throw (mkJsError "Error" "Auto mode needs a Gemini API key when OpenRouter is unavailable. Please set GEMINI_API_KEY or provide a personal key in Settings → API Keys."))
  ∧ (∀ e, result = Throw e →
       err_name e = "Error" ∧ ∀ missing, e ≠ MissingProviderKeyError missing).
Proof.
  intros Hprovider result. subst result. unfold ensureProviderAvailability.
  rewrite Hprovider. split; [| split; [| split; [| split; [| split]]]].
  - intros ->. done.
  - intros -> Hother Himage. destruct provider; simpl in Hother.
    + rewrite (Himage eq_refl). unfold fallbackUsable.
      rewrite selectOpenRouterFallback_provider, Hother. simpl.
      eexists _, _. split; [done | apply selectOpenRouterFallback_provider].
    + unfold fallbackUsable. rewrite selectGeminiFallback_provider, Hother. simpl.
      eexists _, _. split; [done | apply selectGeminiFallback_provider].
  - by intros -> -> ->.
  - intros -> -> -> Hother. unfold fallbackUsable.
    by rewrite selectOpenRouterFallback_provider, Hother.
  - intros -> -> Hother. unfold fallbackUsable.
    by rewrite selectGeminiFallback_provider, Hother.
  - intros e. destruct (truthy (getProviderApiKey provider)); [done |].
    destruct provider; [destruct hasImageAttachment |];
      repeat (destruct (negb _)); try done; intros [= <-];
      (split; [done | by intros []]).
Qed.

Lemma C6_witness_gemini_key_missing :
  ∃ fallbackMode message,
    ensureProviderAvailability 2026
      (λ provider, match provider with GOOGLE => EmptyString | OPENROUTER => "sk-or-v1" end)
      GEMINI_2_5_FLASH "hello there" false
    = Ok (mkAvailability fallbackMode true (Some message))
    ∧ getProviderForMode fallbackMode = Some OPENROUTER.
Proof.
  destruct (C6_ensureProviderAvailability_cases 2026
              (λ provider, match provider with GOOGLE => EmptyString | OPENROUTER => "sk-or-v1" end)
              GEMINI_2_5_FLASH "hello there" false GOOGLE eq_refl)
    as (_ & Hfallback & _).
  exact (Hfallback eq_refl eq_refl (λ _, eq_refl)).
Defined.

(** With no key at all the error thrown is a plain [Error], whose name is
    not that of the class [MissingProviderKeyError]. *)
Lemma C6_counterexample_plain_error :
  ensureProviderAvailability 2026 (λ _, EmptyString) GEMINI_2_5_FLASH "hello there" false
  = Throw (mkJsError "Error" "Auto mode needs at least one provider configured. Please set OPENROUTER_API_KEY to enable OpenRouter models or add a personal key in Settings → API Keys.")
  ∧ err_name (MissingProviderKeyError GOOGLE) = "MissingProviderKeyError"
  ∧ err_name (MissingProviderKeyError OPENROUTER) = "MissingProviderKeyError".
Proof. vm_compute. repeat split; reflexivity. Qed.

(** *** The stream encoder *)




#[local] Arguments JsVal.stringify : simpl never.

Lemma sendMessage_closed (sanitize : Payload → Result JsValue) (payload : Payload) (w : World) :
  __closed (controller w) = true → sendMessage sanitize payload w = (Ok tt, w).
Proof. intros H. unfold sendMessage. by rewrite H. Qed.

Lemma sendAll_closed (sanitize : Payload → Result JsValue) (payloads : list Payload)
    (w : World) :
  __closed (controller w) = true → sendAll sanitize payloads w = (Ok tt, w).
Proof.
  intros H. induction payloads as [|payload payloads IH]; [done |].
  simpl. unfold bind. by rewrite sendMessage_closed.
Qed.



#[local] Abbreviation LF := (String "010" EmptyString) (only parsing).
#[local] Abbreviation DQ := (String "034" EmptyString) (only parsing).






(** *** The stream reducer *)

Lemma handleThreadItemUpdate_stored (now : Z) (threadId' threadItemId eventType : string)
    (eventData : EventData) (parentThreadItemId : option string) (shouldPersistToDB : bool)
    (agent : AgentState) :
  threadItemMap
    (handleThreadItemUpdate now threadId' threadItemId eventType eventData
       parentThreadItemId shouldPersistToDB agent) !! threadItemId
  = Some (updatedItemOf now (threadItemMap agent !! threadItemId) threadId' threadItemId
            eventType eventData parentThreadItemId).
Proof. unfold handleThreadItemUpdate. simpl. apply lookup_insert_eq. Qed.

Lemma updatedItemOf_answer (now : Z) (prevItem : option ThreadItem)
    (threadId' threadItemId : string) (eventData : EventData)
    (parentThreadItemId : option string) :
  answer (updatedItemOf now prevItem threadId' threadItemId "answer" eventData
            parentThreadItemId)
  = Some (nextAnswer (prevItem ≫= answer) (default [] (ev_answer eventData))).
Proof. reflexivity. Qed.

(** The code's [resolvedText] is the merge rule of the specification. *)
Lemma resolvedText_mergedText (prevAnswer : option Answer)
    (incoming : list (string * JsValue)) :
  resolvedText prevAnswer incoming = mergedText (previousText prevAnswer) incoming.
Proof.
  unfold resolvedText, mergedText, snapshotOf, deltaOf, hasFinalText, hasFullText,
    incomingFinalText, incomingFullText, incomingText, isNonBlankString.
  destruct (JsVal.getProp incoming "finalText") as [| | | | |final| |];
    destruct (JsVal.getProp incoming "fullText") as [| | | | |full| |];
    simpl; try done;
    repeat (case_match; simpl; try done).
Qed.

Lemma previousText_nextAnswer (prevAnswer : option Answer)
    (incoming : list (string * JsValue)) :
  previousText (Some (nextAnswer prevAnswer incoming)) = resolvedText prevAnswer incoming.
Proof. reflexivity. Qed.

Lemma storedAnswer_handleThreadItemUpdate (now : Z) (threadId' threadItemId : string)
    (eventData : EventData) (parentThreadItemId : option string) (shouldPersistToDB : bool)
    (agent : AgentState) :
  storedAnswer
    (handleThreadItemUpdate now threadId' threadItemId "answer" eventData
       parentThreadItemId shouldPersistToDB agent) threadItemId
  = Some (nextAnswer (storedAnswer agent threadItemId) (default [] (ev_answer eventData))).
Proof. unfold storedAnswer. rewrite handleThreadItemUpdate_stored. reflexivity. Qed.

#[local] Arguments handleThreadItemUpdate : simpl never.

Lemma applyAnswerEvents_previousText (threadId' threadItemId : string)
    (events : list (Z * EventData * option string * bool)) (agent : AgentState) :
  previousText (storedAnswer (applyAnswerEvents threadId' threadItemId events agent)
                  threadItemId)
  = foldl mergedText (previousText (storedAnswer agent threadItemId))
      (map (λ ev, default [] (ev_answer ev.1.1.2)) events).
Proof.
  revert agent. induction events as [|event events IH]; intros agent; [done |].
  change (applyAnswerEvents threadId' threadItemId (event :: events) agent)
    with (applyAnswerEvents threadId' threadItemId events
            (handleThreadItemUpdate event.1.1.1 threadId' threadItemId "answer"
               event.1.1.2 event.1.2 event.2 agent)).
  rewrite IH, storedAnswer_handleThreadItemUpdate, previousText_nextAnswer,
    resolvedText_mergedText.
  done.
Qed.

Lemma applyAnswerEvents_has_text (threadId' threadItemId : string)
    (events : list (Z * EventData * option string * bool)) (agent : AgentState) :
  (∃ prevAnswer incoming, storedAnswer agent threadItemId = Some (nextAnswer prevAnswer incoming)) →
  ∃ prevAnswer incoming,
    storedAnswer (applyAnswerEvents threadId' threadItemId events agent) threadItemId
    = Some (nextAnswer prevAnswer incoming).
Proof.
  revert agent. induction events as [|event events IH]; intros agent Hagent; [done |].
  change (applyAnswerEvents threadId' threadItemId (event :: events) agent)
    with (applyAnswerEvents threadId' threadItemId events
            (handleThreadItemUpdate event.1.1.1 threadId' threadItemId "answer"
               event.1.1.2 event.1.2 event.2 agent)).
  apply IH. rewrite storedAnswer_handleThreadItemUpdate. eauto.
Qed.

Lemma applyAnswerEvents_text (threadId' threadItemId : string)
    (events : list (Z * EventData * option string * bool)) (event : Z * EventData * option string * bool)
    (agent : AgentState) :
  storedAnswer (applyAnswerEvents threadId' threadItemId (event :: events) agent)
    threadItemId ≫= text
  = Some (foldl mergedText
            (previousText (storedAnswer agent threadItemId))
            (map (λ ev, default [] (ev_answer ev.1.1.2)) (event :: events))).
Proof.
  rewrite <- (applyAnswerEvents_previousText threadId' threadItemId (event :: events) agent).
  change (applyAnswerEvents threadId' threadItemId (event :: events) agent)
    with (applyAnswerEvents threadId' threadItemId events
            (handleThreadItemUpdate event.1.1.1 threadId' threadItemId "answer"
               event.1.1.2 event.1.2 event.2 agent)).
  destruct (applyAnswerEvents_has_text threadId' threadItemId events
              (handleThreadItemUpdate event.1.1.1 threadId' threadItemId "answer"
                 event.1.1.2 event.1.2 event.2 agent)) as (prevAnswer & incoming & ->).
  { rewrite storedAnswer_handleThreadItemUpdate. eauto. }
  reflexivity.
Qed.

(** C1, as stated, fails: an event that supplies the empty string as
    [finalText] does not replace the accumulated text; its delta is
    appended instead. *)
Lemma C1_counterexample_empty_finalText :
  JsVal.getProp [("text", JStr "lo"); ("finalText", JStr EmptyString)] "finalText"
  = JStr EmptyString
  ∧ storedAnswer
      (applyAnswerEvents "thread-1" "item-1"
         [(1, answerData [("text", JStr "Hel")], None, false);
          (2, answerData [("text", JStr "lo"); ("finalText", JStr EmptyString)], None, false)]
         (freshAgent 0)) "item-1" ≫= text
    = Some "Hello".
Proof. split; [reflexivity |]. rewrite applyAnswerEvents_text. vm_compute. reflexivity. Qed.

(** C1 (amended): for every non-empty sequence of [answer] events handled
    for one thread item, the stored text is the fold of the merge rule over
    the events, where a snapshot is a [finalText], else a [fullText], that
    is a string with a character other than white space, and an event
    without a snapshot appends its [text]; in particular the deltas [Hel]
    and [lo] give [Hello]. *)
Theorem C1_answer_events_follow_merge_rule (threadId' threadItemId : string)
    (event : Z * EventData * option string * bool)
    (events : list (Z * EventData * option string * bool)) (agent : AgentState) :
  storedAnswer
      (applyAnswerEvents threadId' threadItemId (event :: events) agent) threadItemId ≫= text
  = Some (foldl mergedText
            (previousText (storedAnswer agent threadItemId))
            (map (λ ev, default [] (ev_answer ev.1.1.2)) (event :: events)))
  ∧ storedAnswer
      (applyAnswerEvents threadId' threadItemId
         [(1, answerData [("text", JStr "Hel")], None, false);
          (2, answerData [("text", JStr "lo")], None, false)]
         (freshAgent 0)) threadItemId ≫= text
    = Some "Hello".
Proof.
  split; [apply applyAnswerEvents_text |].
  rewrite applyAnswerEvents_text. unfold storedAnswer, freshAgent. simpl.
  rewrite lookup_empty. reflexivity.
Qed.

(** C10, as stated, fails: an event whose [finalText] is blank and whose
    [fullText] is not does not follow the delta rule; the [fullText]
    replaces the accumulated text. *)
Lemma C10_counterexample_blank_finalText_with_fullText :
  isNonBlankString (JStr " ") = false
  ∧ storedAnswer
      (applyAnswerEvents "thread-1" "item-1"
         [(1, answerData [("text", JStr "Hel")], None, false);
          (2, answerData [("text", JStr "lo"); ("finalText", JStr " ");
                          ("fullText", JStr "Full text")], None, false)]
         (freshAgent 0)) "item-1" ≫= text
    = Some "Full text".
Proof. split; [reflexivity |]. rewrite applyAnswerEvents_text. vm_compute. reflexivity. Qed.

(** C10 (amended): when neither [finalText] nor [fullText] of an [answer]
    event is a string with a character other than white space, the item
    stored by the reducer has as text the previous text followed by the
    incoming [text], and as [finalText] the previous [finalText] when that
    is a non-empty string, else the previous text. *)
Theorem C10_blank_snapshots_are_ignored (now : Z) (threadId' threadItemId : string)
    (eventData : EventData) (parentThreadItemId : option string) (shouldPersistToDB : bool)
    (agent : AgentState) :
  let prevAnswer := storedAnswer agent threadItemId in
  let incoming := default [] (ev_answer eventData) in
  isNonBlankString (JsVal.getProp incoming "finalText") = false →
  isNonBlankString (JsVal.getProp incoming "fullText") = false →
  ∃ item,
    threadItemMap
      (handleThreadItemUpdate now threadId' threadItemId "answer" eventData
         parentThreadItemId shouldPersistToDB agent) !! threadItemId = Some item
    ∧ answer item ≫= text = Some (previousText prevAnswer +:+ deltaOf incoming)
    ∧ answer item ≫= finalText
      = Some (match prevAnswer ≫= finalText with
              | Some previousFinal =>
                  if bool_decide (previousFinal = EmptyString)
                  then previousText prevAnswer else previousFinal
              | None => previousText prevAnswer
              end).
Proof.
  intros prevAnswer incoming Hfinal Hfull.
  eexists. split; [apply handleThreadItemUpdate_stored |].
  rewrite updatedItemOf_answer. simpl. fold (storedAnswer agent threadItemId).
  fold prevAnswer incoming. split.
  - unfold resolvedText, hasFinalText, hasFullText, incomingFinalText, incomingFullText.
    rewrite Hfinal, Hfull. done.
  - unfold resolvedFinalText, hasFinalText, hasFullText, incomingFinalText,
      incomingFullText.
    rewrite Hfinal, Hfull. unfold previousAnswer, truthy.
    destruct prevAnswer as [[? [previousFinal|] ? ?]|]; simpl; try done.
    by destruct (bool_decide (previousFinal = EmptyString)).
Qed.

Lemma C10_witness_whitespace_finalText :
  ∃ item,
    threadItemMap
      (handleThreadItemUpdate 2 "thread-1" "item-1" "answer"
         (answerData [("text", JStr "lo"); ("finalText", JStr "   ")]) None false
         (handleThreadItemUpdate 1 "thread-1" "item-1" "answer"
            (answerData [("text", JStr "Hel")]) None false (freshAgent 0)))
      !! "item-1" = Some item
    ∧ answer item ≫= text = Some "Hello"
    ∧ answer item ≫= finalText = Some "Hel".
Proof.
  destruct (C10_blank_snapshots_are_ignored 2 "thread-1" "item-1"
              (answerData [("text", JStr "lo"); ("finalText", JStr "   ")]) None false
              (handleThreadItemUpdate 1 "thread-1" "item-1" "answer"
                 (answerData [("text", JStr "Hel")]) None false (freshAgent 0))
              eq_refl eq_refl) as (item & Hstored & Htext & Hfinal).
  exists item. split; [exact Hstored |].
  rewrite storedAnswer_handleThreadItemUpdate in Htext, Hfinal.
  split; [exact Htext | exact Hfinal].
Defined.

(** *** Persistence during a run *)

Lemma mapSet_elem {A} (key : string) (value : A) (entries : list (string * A)) :
  (key, value) ∈ mapSet key value entries.
Proof.
  induction entries as [|[k v] entries IH]; simpl; [set_solver |].
  case_bool_decide; subst; set_solver.
Qed.

Lemma updateThreadItem_queues (now : Z) (threadId' itemId : string)
    (threadItem : PartialThreadItem) (env0 : Env) :
  p_id threadItem = Some itemId → truthy itemId = true → truthy threadId' = true →
  ∃ item due,
    (itemId, item) ∈ items (batchUpdateQueue (updateThreadItem now threadId' threadItem env0))
    ∧ timeoutId (batchUpdateQueue (updateThreadItem now threadId' threadItem env0)) = Some due.
Proof.
  intros Hid Hitem Hthread. unfold updateThreadItem. rewrite Hid, Hitem, Hthread. simpl.
  destruct (find _ _) as [existing|]; simpl; rewrite ?Hid; simpl;
    destruct (timeoutId (batchUpdateQueue env0));
    (eexists _, _; split; [apply mapSet_elem | done]).
Qed.

(** C3: the persistence flag computed by the loop has no effect on what
    [handleThreadItemUpdate] does; every handled event puts its item in the
    write queue with a flush timer pending; and two events of one item that
    arrive 600 ms apart, each with the flag false, are written to the
    database at 600 ms and 1200 ms: twice within one second. *)
Theorem C3_every_event_is_written_within_the_batch_interval :
  (∀ now threadId' threadItemId eventType eventData parentThreadItemId agent,
     handleThreadItemUpdate now threadId' threadItemId eventType eventData
       parentThreadItemId true agent
     = handleThreadItemUpdate now threadId' threadItemId eventType eventData
         parentThreadItemId false agent)
  ∧ (∀ ev agent,
       (currentEvent ev ∈ EVENT_TYPES ∧ truthy (data_threadId ev) = true
        ∧ truthy (data_threadItemId ev) = true) →
       ∃ item due,
         (data_threadItemId ev, item)
           ∈ items (batchUpdateQueue (env (handleStreamEvent ev agent)))
         ∧ timeoutId (batchUpdateQueue (env (handleStreamEvent ev agent))) = Some due)
  ∧ (let agent := runAgentLoop 0 [answerFrame 100 "Hel"; answerFrame 700 "lo"] ∅ emptyEnv in
     lastDbUpdate agent = 0
     ∧ map (λ put, (put.1, map id put.2)) (bulkPuts (runTimers 5000 (env agent)))
       = [(600, ["item-1"]); (1200, ["item-1"])]).
Proof.
  split; [done |]. split.
  - intros ev agent (Hevent & Hthread & Hitem).
    unfold handleStreamEvent. rewrite bool_decide_eq_true_2 by done.
    rewrite Hthread, Hitem. simpl.
    unfold handleThreadItemUpdate.
    case_bool_decide; simpl; by apply updateThreadItem_queues.
  - vm_compute. done.
Qed.

(** *** Branch groups and selections *)

Lemma groupsOf_member (items : list ThreadItem) (rootId : string) (group : list ThreadItem) :
  group = filter (λ x, resolveBranchRootId x = rootId) items →
  ∀ x, x ∈ group ↔ x ∈ items ∧ resolveBranchRootId x = rootId.
Proof. intros -> x. rewrite list_elem_of_filter. tauto. Qed.

Lemma buildBranchGroups_step (items : list ThreadItem) (item : ThreadItem)
    (groups : gmap string (list ThreadItem)) :
  groupsOf items groups →
  groupsOf (items ++ [item])
    (<[resolveBranchRootId item :=
         (default [] (groups !! resolveBranchRootId item) ++ [item])%list]> groups).
Proof.
  intros [Hgroups Hall]. split.
  - intros rootId group Hlookup.
    assert (Hfilter : group = filter (λ x, resolveBranchRootId x = rootId) (items ++ [item])%list).
    { rewrite filter_app.
      destruct (decide (resolveBranchRootId item = rootId)) as [<- | Hne].
      + rewrite lookup_insert_eq in Hlookup. simplify_eq.
        rewrite (filter_cons_True _ item []) by done. rewrite filter_nil. f_equal.
        destruct (groups !! resolveBranchRootId item) as [old|] eqn:Hold; simpl.
        * by destruct (Hgroups _ _ Hold) as (_ & -> & _).
        * destruct (filter _ items) as [|x rest] eqn:Hx; [done |].
          assert (Hin : x ∈ filter (λ x, resolveBranchRootId x = resolveBranchRootId item)
                          items) by (rewrite Hx; set_solver).
          apply list_elem_of_filter in Hin as [Hroot Hin].
          destruct (Hall x Hin) as [g Hg]. congruence.
      + rewrite lookup_insert_ne in Hlookup by done.
        rewrite (filter_cons_False _ item []) by done. rewrite filter_nil, app_nil_r.
        by destruct (Hgroups _ _ Hlookup) as (_ & -> & _). }
    split; [| split; [exact Hfilter | by apply groupsOf_member]].
    destruct (decide (resolveBranchRootId item = rootId)) as [<- | Hne].
    + rewrite lookup_insert_eq in Hlookup. simplify_eq.
      intros Hnil.
      assert (Hin : item ∈ filter (λ x, resolveBranchRootId x = resolveBranchRootId item)
                             (items ++ [item])%list).
      { apply list_elem_of_filter. split; [done | set_solver]. }
      rewrite Hnil in Hin. by apply elem_of_nil in Hin.
    + rewrite lookup_insert_ne in Hlookup by done.
      by destruct (Hgroups _ _ Hlookup) as (Hnil & _ & _).
  - intros x Hx. apply elem_of_app in Hx as [Hx | Hx].
    + destruct (decide (resolveBranchRootId item = resolveBranchRootId x)) as [-> | Hne].
      * rewrite lookup_insert_eq. eauto.
      * rewrite lookup_insert_ne by done. by apply Hall.
    + apply list_elem_of_singleton in Hx as ->. rewrite lookup_insert_eq. eauto.
Qed.

Lemma buildBranchGroups_foldl (rest items : list ThreadItem)
    (groups : gmap string (list ThreadItem)) :
  groupsOf items groups →
  groupsOf (items ++ rest)
    (foldl (λ groups item,
              let rootId := resolveBranchRootId item in
              <[rootId := (default [] (groups !! rootId) ++ [item])%list]> groups)
           groups rest).
Proof.
  revert items groups. induction rest as [|item rest IH]; intros items groups Hgroups.
  - by rewrite app_nil_r.
  - simpl. replace (items ++ item :: rest)%list with ((items ++ [item]) ++ rest)%list
      by (by rewrite <- app_assoc).
    apply IH. by apply buildBranchGroups_step.
Qed.

Lemma buildBranchGroups_groupsOf (items : list ThreadItem) :
  groupsOf items (buildBranchGroups items).
Proof.
  apply (buildBranchGroups_foldl items [] ∅).
  split; [intros ? ? H; by rewrite lookup_empty in H | intros x Hx; by apply elem_of_nil in Hx].
Qed.

(** A loop over entries with distinct keys in which every iteration
    rewrites only the value of its own key. *)
Lemma foldl_own_key {A B} (step : gmap string A → string * B → gmap string A)
    (f : string * B → option A → option A) (entries : list (string * B)) :
  (∀ acc e, step acc e !! e.1 = f e (acc !! e.1)) →
  (∀ acc e k, k ≠ e.1 → step acc e !! k = acc !! k) →
  NoDup entries.*1 →
  ∀ acc k,
    foldl step acc entries !! k
    = match list_find (λ e, e.1 = k) entries with
      | Some (_, e) => f e (acc !! k)
      | None => acc !! k
      end.
Proof.
  intros Hown Hother. induction entries as [|e entries IH]; intros Hnodup acc k; [done |].
  apply NoDup_cons in Hnodup as [Hfresh Hnodup].
  cbn [foldl]. rewrite IH by done. cbn [list_find]. 
  destruct (decide (e.1 = k)) as [<- | Hne]; simpl.
  - destruct (list_find (λ e0, e0.1 = e.1) entries) as [[i e']|] eqn:Hfind.
    + apply list_find_Some in Hfind as (Hi & Heq & _).
      exfalso. apply Hfresh. rewrite <- Heq.
      apply list_elem_of_fmap_2. by eapply list_elem_of_lookup_2.
    + simpl. apply Hown.
  - destruct (list_find (λ e0, e0.1 = k) entries) as [[i e']|] eqn:Hfind; simpl.
    + by rewrite Hother.
    + by rewrite Hother.
Qed.

Lemma list_find_map_to_list {A} (m : gmap string A) (k : string) :
  match list_find (λ e : string * A, e.1 = k) (map_to_list m) with
  | Some (_, e) => e.1 = k ∧ m !! k = Some e.2
  | None => m !! k = None
  end.
Proof.
  destruct (list_find _ _) as [[i [k' v]]|] eqn:Hfind.
  - apply list_find_Some in Hfind as (Hi & Heq & _). simpl in *. subst.
    split; [done |]. apply elem_of_map_to_list. by eapply list_elem_of_lookup_2.
  - apply list_find_None in Hfind. destruct (m !! k) as [v|] eqn:Hv; [| done].
    apply elem_of_map_to_list in Hv. rewrite Forall_forall in Hfind.
    by specialize (Hfind _ Hv).
Qed.

Lemma selectLastOrDelete_lookup (groups : gmap string (list ThreadItem)) (rootId k : string)
    (selections : gmap string string) :
  selectLastOrDelete groups rootId selections !! k
  = if decide (k = rootId) then id <$> (groups !! rootId ≫= last) else selections !! k.
Proof.
  unfold selectLastOrDelete.
  destruct (groups !! rootId ≫= last) as [item|]; simpl; destruct (decide (k = rootId)) as [-> | Hne].
  - by rewrite lookup_insert_eq.
  - by rewrite lookup_insert_ne.
  - by rewrite lookup_delete_eq.
  - by rewrite lookup_delete_ne.
Qed.

Lemma pruneEntry_own (groups : gmap string (list ThreadItem)) (validIds : gset string)
    (acc : gmap string string) (e : string * string) :
  pruneEntry groups validIds acc e !! e.1 = prunedValue groups validIds e (acc !! e.1).
Proof.
  unfold pruneEntry, prunedValue.
  destruct (match groups !! e.1 with Some _ => _ | None => _ end);
    destruct (bool_decide (e.2 ∈ validIds)); simpl;
    rewrite ?selectLastOrDelete_lookup; by rewrite ?decide_True by done.
Qed.

Lemma pruneEntry_other (groups : gmap string (list ThreadItem)) (validIds : gset string)
    (acc : gmap string string) (e : string * string) (k : string) :
  k ≠ e.1 → pruneEntry groups validIds acc e !! k = acc !! k.
Proof.
  intros Hne. unfold pruneEntry.
  destruct (match groups !! e.1 with Some _ => _ | None => _ end);
    destruct (bool_decide (e.2 ∈ validIds)); simpl;
    rewrite ?selectLastOrDelete_lookup; by rewrite ?decide_False by done.
Qed.

Lemma defaultEntry_own (acc : gmap string string) (e : string * list ThreadItem) :
  defaultEntry acc e !! e.1 = defaultedValue e (acc !! e.1).
Proof.
  unfold defaultEntry, defaultedValue. destruct (last e.2); [| done].
  destruct (negb _); [by rewrite lookup_insert_eq | done].
Qed.

Lemma defaultEntry_other (acc : gmap string string) (e : string * list ThreadItem)
    (k : string) :
  k ≠ e.1 → defaultEntry acc e !! k = acc !! k.
Proof.
  intros Hne. unfold defaultEntry. destruct (last e.2); [| done].
  destruct (negb _); [by rewrite lookup_insert_ne | done].
Qed.

(** The selections after [pruneBranchSelections], key by key. *)
Lemma pruneBranchSelections_lookup (state : State) (rootId : string) :
  let state' := pruneBranchSelections state in
  let groups := buildBranchGroups (threadItems state') in
  let validIds : gset string := list_to_set (map id (threadItems state')) in
  branchSelections state' !! rootId
  = match groups !! rootId with
    | Some group =>
        defaultedValue (rootId, group)
          (match branchSelections state !! rootId with
           | Some selectedId =>
               prunedValue groups validIds (rootId, selectedId) (Some selectedId)
           | None => None
           end)
    | None => None
    end.
Proof.
  simpl. set (items := map (λ item, ensureBranchRootId item None) (threadItems state)).
  set (groups := buildBranchGroups items).
  set (validIds := list_to_set (map id items) : gset string).
  rewrite (foldl_own_key defaultEntry defaultedValue); cycle 1.
  { apply defaultEntry_own. } { apply defaultEntry_other. } { apply NoDup_fst_map_to_list. }
  rewrite (foldl_own_key (pruneEntry groups validIds) (prunedValue groups validIds)); cycle 1.
  { apply pruneEntry_own. } { apply pruneEntry_other. } { apply NoDup_fst_map_to_list. }
  pose proof (list_find_map_to_list groups rootId) as Hgroups.
  pose proof (list_find_map_to_list (branchSelections state) rootId) as Hsel.
  destruct (list_find _ (map_to_list groups)) as [[i [k group]]|];
    destruct (list_find _ (map_to_list (branchSelections state))) as [[j [k' selectedId]]|];
    simpl in *; destruct_and?; subst; rewrite ?Hgroups, ?Hsel; simplify_option_eq; try done.
  unfold prunedValue. simpl. by rewrite Hgroups.
Qed.
(** *** Normalization of branch roots *)

Lemma id_ensureBranchRootId (item : ThreadItem) (explicit : option string) :
  id (ensureBranchRootId item explicit) = id item.
Proof. reflexivity. Qed.

Lemma find_replaceOrPush (itemId : string) (item : ThreadItem) (f : ThreadItem → ThreadItem)
    (threadItems0 : list ThreadItem) :
  id item = itemId → (∀ t, id (f t) = id t) →
  find (λ t, bool_decide (id t = itemId)) (map f (replaceOrPush itemId item threadItems0))
  = Some (f item).
Proof.
  intros Hid Hf. induction threadItems0 as [|t rest IH]; simpl.
  - by rewrite bool_decide_eq_true_2 by (by rewrite Hf).
  - destruct (decide (id t = itemId)) as [Ht | Ht].
    + rewrite bool_decide_eq_true_2 by done. simpl.
      by rewrite bool_decide_eq_true_2 by (by rewrite Hf).
    + rewrite bool_decide_eq_false_2 by done. simpl.
      rewrite bool_decide_eq_false_2 by (by rewrite Hf). apply IH.
Qed.

Lemma length_replaceOrPush (itemId : string) (item : ThreadItem)
    (threadItems0 : list ThreadItem) :
  length (replaceOrPush itemId item threadItems0)
  = match find (λ t, bool_decide (id t = itemId)) threadItems0 with
    | Some _ => length threadItems0
    | None => S (length threadItems0)
    end.
Proof.
  induction threadItems0 as [|t rest IH]; simpl; [done |].
  destruct (bool_decide (id t = itemId)); simpl; [done |].
  rewrite IH. by destruct (find _ rest).
Qed.

Lemma resolveBranchRootId_ensureBranchRootId (item : ThreadItem) :
  resolveBranchRootId (ensureBranchRootId item None) = resolveBranchRootId item.
Proof.
  unfold ensureBranchRootId, resolveBranchRootId, orStr. simpl.
  destruct (branchRootId item) as [root|], (parentId item) as [parent|]; simpl;
    try (destruct (truthy root) eqn:Hr; simpl);
    try (destruct (truthy parent) eqn:Hp; simpl);
    rewrite ?Hr, ?Hp; simpl;
    try (destruct (truthy (id item)) eqn:Hi; simpl);
    rewrite ?Hr, ?Hp, ?Hi; done.
Qed.

Lemma resolveBranchRootId_ensureBranchRootId_explicit (item : ThreadItem)
    (explicit : option string) :
  resolveBranchRootId (ensureBranchRootId item explicit)
  = default (resolveBranchRootId item) (orStr explicit None).
Proof.
  destruct (orStr explicit None) as [root|] eqn:Hexplicit.
  - unfold orStr in Hexplicit. destruct explicit as [e|]; [| done].
    destruct (truthy e) eqn:He; simplify_eq.
    unfold resolveBranchRootId at 1.
    change (branchRootId (ensureBranchRootId item (Some root)))
      with (Some (default (resolveBranchRootId item) (orStr (Some root) None))).
    unfold orStr. rewrite He. cbn. rewrite He. cbn. by rewrite He.
  - replace (ensureBranchRootId item explicit) with (ensureBranchRootId item None).
    + apply resolveBranchRootId_ensureBranchRootId.
    + unfold ensureBranchRootId. by rewrite Hexplicit.
Qed.

Lemma ensureBranchRootId_idempotent (item : ThreadItem) (explicit : option string) :
  ensureBranchRootId (ensureBranchRootId item explicit) None
  = ensureBranchRootId item explicit.
Proof.
  unfold ensureBranchRootId at 1. rewrite resolveBranchRootId_ensureBranchRootId_explicit.
  reflexivity.
Qed.

Lemma map_ensureBranchRootId_idempotent (threadItems0 : list ThreadItem) :
  map (λ item, ensureBranchRootId item None)
      (map (λ item, ensureBranchRootId item None) threadItems0)
  = map (λ item, ensureBranchRootId item None) threadItems0.
Proof.
  rewrite map_map. apply map_ext. intros item. apply ensureBranchRootId_idempotent.
Qed.



#[local] Arguments pruneBranchSelections : simpl never.
#[local] Arguments buildBranchGroups : simpl never.

Lemma existsb_id (group : list ThreadItem) (selectedId : string) :
  existsb (λ item, bool_decide (id item = selectedId)) group = true
  ↔ ∃ item, item ∈ group ∧ id item = selectedId.
Proof.
  rewrite existsb_exists. split; intros (item & Hin & Hid); exists item.
  - split; [by apply list_elem_of_In | by apply bool_decide_eq_true in Hid].
  - split; [by apply list_elem_of_In | by apply bool_decide_eq_true].
Qed.


Lemma threadItems_pruneBranchSelections (state : State) :
  threadItems (pruneBranchSelections state)
  = map (λ item, ensureBranchRootId item None) (threadItems state).
Proof. reflexivity. Qed.

Lemma pruneBranchSelections_consistent (state : State) :
  selectionsConsistent (pruneBranchSelections state).
Proof.
  pose proof (buildBranchGroups_groupsOf (threadItems (pruneBranchSelections state)))
    as [Hgroups _].
  unfold selectionsConsistent. rewrite threadItems_pruneBranchSelections in *.
  split.
  - intros rootId selectedId Hsel.
    rewrite pruneBranchSelections_lookup, threadItems_pruneBranchSelections in Hsel.
    destruct (buildBranchGroups _ !! rootId) as [group|] eqn:Hgroup; [| done].
    exists group. destruct (Hgroups _ _ Hgroup) as (Hnil & _ & _).
    destruct (last group) as [lastItem|] eqn:Hlast;
      [| by apply last_None in Hlast].
    assert (HlastIn : lastItem ∈ group).
    { apply last_Some in Hlast as [l' ->]. set_solver. }
    unfold defaultedValue in Hsel. simpl in Hsel. rewrite Hlast in Hsel.
    destruct (negb _); [simplify_eq; eauto |].
    destruct (branchSelections state !! rootId) as [previous|]; [| done].
    unfold prunedValue in Hsel. simpl in Hsel. rewrite Hgroup in Hsel. simpl in Hsel.
    rewrite Hlast in Hsel. simpl in Hsel.
    destruct (existsb _ group) eqn:Hhas; simpl in Hsel.
    + destruct (bool_decide _); simplify_eq; [| eauto].
      apply existsb_id in Hhas as (item & Hin & Hid). eauto.
    + simplify_eq. eauto.
  - intros rootId group Hgroup Hnil.
    rewrite pruneBranchSelections_lookup, threadItems_pruneBranchSelections, Hgroup.
    destruct (last group) as [lastItem|] eqn:Hlast;
      [| by apply last_None in Hlast].
    unfold defaultedValue. simpl. rewrite Hlast.
    destruct (match branchSelections state !! rootId with Some _ => _ | None => _ end)
      as [current|]; simpl; [| eauto].
    destruct (negb _); eauto.
Qed.


Lemma pruneBranchSelections_keeps (state : State) (rootId selectedId : string)
    (group : list ThreadItem) (item : ThreadItem) :
  buildBranchGroups (threadItems (pruneBranchSelections state)) !! rootId = Some group →
  branchSelections state !! rootId = Some selectedId →
  item ∈ group → id item = selectedId → truthy selectedId = true →
  branchSelections (pruneBranchSelections state) !! rootId = Some selectedId.
Proof.
  intros Hgroup Hsel Hin Hid Htruthy.
  pose proof (buildBranchGroups_groupsOf (threadItems (pruneBranchSelections state)))
    as [Hgroups _].
  destruct (Hgroups _ _ Hgroup) as (Hnil & _ & Hmem).
  rewrite threadItems_pruneBranchSelections in Hgroup, Hmem.
  rewrite pruneBranchSelections_lookup, threadItems_pruneBranchSelections, Hgroup, Hsel.
  destruct (last group) as [lastItem|] eqn:Hlast; [| by apply last_None in Hlast].
  unfold defaultedValue, prunedValue. simpl. rewrite Hlast, Hgroup. simpl.
  rewrite (proj2 (existsb_id group selectedId)) by eauto.
  rewrite bool_decide_eq_true_2; simpl; [by rewrite Htruthy |].
  apply elem_of_list_to_set. apply list_elem_of_In, in_map_iff.
  exists item. split; [done |]. apply list_elem_of_In. by apply Hmem.
Qed.


Lemma buildBranchGroups_not_nil (items : list ThreadItem) (rootId : string)
    (group : list ThreadItem) :
  buildBranchGroups items !! rootId = Some group → group ≠ [].
Proof.
  intros Hgroup. pose proof (buildBranchGroups_groupsOf items) as [Hgroups _].
  by destruct (Hgroups _ _ Hgroup).
Qed.





Lemma deleteThreadItem_consistent (remainingItems : Result nat) (threadDeleted : Result unit)
    (threads : list string) (threadItemId : string) (state : State) (threadId' : string) :
  currentThreadId state = Some threadId' → truthy threadId' = true →
  let state' :=
    (deleteThreadItem (Ok tt) remainingItems threadDeleted threads threadItemId state).2 in
  selectionsConsistent state'
  ∧ ∀ item, item ∈ threadItems state' → id item ≠ threadItemId.
Proof.
  intros Hcurrent Htruthy. unfold deleteThreadItem. rewrite Hcurrent, Htruthy. simpl.
  set (before := mkState (filter (λ t, id t ≠ threadItemId) (threadItems state))
                   (branchSelections state) (Some threadId')).
  assert (Hitems : ∀ t, t ∈ threadItems (pruneBranchSelections before) →
                        id t ≠ threadItemId).
  { intros t Ht. rewrite ?threadItems_pruneBranchSelections in Ht.
    apply list_elem_of_In, in_map_iff in Ht as (t0 & <- & Ht0).
    apply list_elem_of_In in Ht0. subst before. simpl in Ht0.
    apply list_elem_of_filter in Ht0 as [Hne _]. done. }
  pose proof (pruneBranchSelections_consistent before) as Hconsistent.
  destruct remainingItems as [[|n]|e]; [destruct threadDeleted as [[]|e] | |];
    simpl; split; done.
Qed.





(** ** Further properties of the mode resolver and the completion route *)

Lemma selectModelForQuery_range (currentYear : Z) (query : string) (hasImage : bool) :
  selectModelForQuery currentYear query hasImage
    ∈ [GEMINI_2_5_FLASH; DEEPSEEK_CHAT_V3_1; DEEPSEEK_R1; LONGCAT_FLASH_CHAT;
       GEMINI_2_5_PRO; GLM_4_5_AIR].
Proof.
  unfold selectModelForQuery.
  repeat match goal with |- context [if ?b then _ else _] => destruct b end; set_solver.
Qed.

Lemma selectOpenRouterFallback_range (currentYear : Z) (query : string) :
  selectOpenRouterFallback currentYear query
    ∈ [DEEPSEEK_CHAT_V3_1; DEEPSEEK_R1; LONGCAT_FLASH_CHAT; GLM_4_5_AIR].
Proof.
  unfold selectOpenRouterFallback.
  repeat match goal with |- context [if ?b then _ else _] => destruct b end; set_solver.
Qed.

Lemma selectGeminiFallback_range (query : string) (hasImage : bool) :
  selectGeminiFallback query hasImage ∈ [GEMINI_2_5_FLASH; GEMINI_2_5_PRO].
Proof.
  unfold selectGeminiFallback.
  repeat match goal with |- context [if ?b then _ else _] => destruct b end; set_solver.
Qed.

(** Auto resolution always ends in one of the six modes that name a
    model of their own: never [Auto], [Pro], [Deep], nor a mode without a
    model. *)
Theorem selectModelForQuery_is_a_model_mode (currentYear : Z) (query : string)
    (hasImage : bool) :
  selectModelForQuery currentYear query hasImage
    ∈ [GEMINI_2_5_FLASH; DEEPSEEK_CHAT_V3_1; DEEPSEEK_R1; LONGCAT_FLASH_CHAT;
       GEMINI_2_5_PRO; GLM_4_5_AIR]
  ∧ selectModelForQuery currentYear query hasImage ∉ [Auto; Pro; Deep].
Proof.
  pose proof (selectModelForQuery_range currentYear query hasImage) as Hrange.
  split; [done |]. revert Hrange.
  generalize (selectModelForQuery currentYear query hasImage). intros mode Hrange Hin.
  repeat (apply elem_of_cons in Hrange as [-> | Hrange];
          [repeat (apply elem_of_cons in Hin as [Hin | Hin]; [discriminate |]);
           by apply elem_of_nil in Hin |]).
  by apply elem_of_nil in Hrange.
Qed.

(** When Auto resolution picks a mode served by OpenRouter, the OpenRouter
    fallback heuristic picks the same mode for the same query and year. *)
Theorem selectOpenRouterFallback_agrees_with_resolution (currentYear : Z) (query : string)
    (hasImage : bool) :
  getProviderForMode (selectModelForQuery currentYear query hasImage) = Some OPENROUTER →
  selectOpenRouterFallback currentYear query
  = selectModelForQuery currentYear query hasImage.
Proof.
  unfold selectModelForQuery, selectOpenRouterFallback.
  destruct (hasImage || Js.testWordsCI imageWords query); [discriminate |].
  destruct (bool_decide (2 ≤ score codeIndicators (Js.toLowerCase query))%nat); [done |].
  destruct (bool_decide (2 ≤ score mathIndicators (Js.toLowerCase query))%nat
            || Js.testWordsCI mathWords query); [done |].
  destruct (recentYearMentions currentYear query
            || bool_decide (2 ≤ score newsIndicators (Js.toLowerCase query))%nat); [done |].
  destruct (bool_decide (50 < Js.splitSpacesLength query)%nat
            || Js.testWordsCI researchWords query); [discriminate |].
  destruct (bool_decide (2 ≤ score creativeIndicators (Js.toLowerCase query))%nat); [done |].
  destruct (Js.testWordsCI translationWords query
            && bool_decide (Js.splitSpacesLength query < 30)%nat); [discriminate |].
  destruct (bool_decide (Js.splitSpacesLength query < 20)%nat); [discriminate | done].
Qed.

Lemma selectOpenRouterFallback_agrees_witness :
  selectOpenRouterFallback 2026 "write a poem, a short story about rain"
  = selectModelForQuery 2026 "write a poem, a short story about rain" false.
Proof.
  apply (selectOpenRouterFallback_agrees_with_resolution 2026
           "write a poem, a short story about rain" false).
  vm_compute. reflexivity.
Defined.

(** The two fallback heuristics always land on the provider they are named
    after: the OpenRouter fallback on a mode served by OpenRouter, the
    Gemini fallback on a mode served by Google. *)
Theorem fallbacks_land_on_their_provider (currentYear : Z) (query : string)
    (hasImage : bool) :
  getProviderForMode (selectOpenRouterFallback currentYear query) = Some OPENROUTER
  ∧ getProviderForMode (selectGeminiFallback query hasImage) = Some GOOGLE.
Proof.
  split; [apply selectOpenRouterFallback_provider | apply selectGeminiFallback_provider].
Qed.

Lemma ensureProviderAvailability_Ok_inv (currentYear : Z)
    (getProviderApiKey : ProviderEnumType → string) (mode : ChatMode) (query : string)
    (hasImageAttachment : bool) (result : Availability) :
  ensureProviderAvailability currentYear getProviderApiKey mode query hasImageAttachment
  = Ok result →
  (∃ provider, getProviderForMode (av_mode result) = Some provider
               ∧ truthy (getProviderApiKey provider) = true)
  ∧ (av_changed result = false → av_mode result = mode ∧ av_message result = None)
  ∧ (av_changed result = true → av_mode result ≠ mode ∧ is_Some (av_message result)).
Proof.
  unfold ensureProviderAvailability.
  destruct (getProviderForMode_is_Some mode) as [provider Hprovider]. rewrite Hprovider.
  destruct (truthy (getProviderApiKey provider)) eqn:Hkey.
  { intros [= <-]. simpl. split; [eauto |]. split; [done | discriminate]. }
  destruct provider.
  - destruct hasImageAttachment; [discriminate |].
    unfold fallbackUsable. rewrite selectOpenRouterFallback_provider.
    destruct (truthy (getProviderApiKey OPENROUTER)) eqn:Hother; [| discriminate].
    intros [= <-]. simpl. split; [rewrite selectOpenRouterFallback_provider; eauto |].
    split; [discriminate |]. intros _. split; [| eauto].
    intros Heq. pose proof (selectOpenRouterFallback_provider currentYear query) as H.
    rewrite Heq in H. congruence.
  - unfold fallbackUsable. rewrite selectGeminiFallback_provider.
    destruct (truthy (getProviderApiKey GOOGLE)) eqn:Hother; [| discriminate].
    intros [= <-]. simpl. split; [rewrite selectGeminiFallback_provider; eauto |].
    split; [discriminate |]. intros _. split; [| eauto].
    intros Heq. pose proof (selectGeminiFallback_provider query hasImageAttachment) as H.
    rewrite Heq in H. congruence.
Qed.

(** Whenever [ensureProviderAvailability] returns, the mode it returns is
    served by a provider that has a key; with [changed = false] it is the
    requested mode and there is no message, with [changed = true] it is a
    different mode and there is a message. *)
Theorem ensureProviderAvailability_returns_a_served_mode (currentYear : Z)
    (getProviderApiKey : ProviderEnumType → string) (mode : ChatMode) (query : string)
    (hasImageAttachment : bool) (result : Availability) :
  ensureProviderAvailability currentYear getProviderApiKey mode query hasImageAttachment
  = Ok result →
  (∃ provider, getProviderForMode (av_mode result) = Some provider
               ∧ truthy (getProviderApiKey provider) = true)
  ∧ (av_changed result = false → av_mode result = mode ∧ av_message result = None)
  ∧ (av_changed result = true → av_mode result ≠ mode ∧ is_Some (av_message result)).
Proof. apply ensureProviderAvailability_Ok_inv. Qed.

Lemma ensureProviderAvailability_served_witness :
  ∃ provider,
    getProviderForMode DEEPSEEK_CHAT_V3_1 = Some provider
    ∧ truthy (match provider with GOOGLE => EmptyString | OPENROUTER => "sk-or-v1" end)
      = true.
Proof.
  exact (proj1 (ensureProviderAvailability_returns_a_served_mode 2026
                  (λ provider, match provider with
                               | GOOGLE => EmptyString
                               | OPENROUTER => "sk-or-v1"
                               end)
                  GEMINI_2_5_FLASH "hello there" false
                  (mkAvailability DEEPSEEK_CHAT_V3_1 true
                     (Some "Fallback to OpenRouter because Gemini API key is missing"))
                  eq_refl)).
Defined.

(** A [TypeError] thrown by the sanitizer whose message contains
    [invalid state] is taken for the closed signal of the stream: on a sink
    that is open, [sendMessage] writes nothing, logs nothing, sets the
    flag, and every later frame is dropped. *)
Theorem sendMessage_sanitizer_error_mistaken_for_closed_stream
    (sanitize : Payload → Result JsValue) (payload : Payload) (w : World) (e : JsError) :
  __closed (controller w) = false →
  sanitize (normalizeContent payload) = Throw e →
  isControllerClosedError e = true →
  let w' :=
    mkWorld (mkController (enqueued (controller w)) true (streamError (controller w)))
            (logged w) in
  sendMessage sanitize payload w = (Ok tt, w')
  ∧ ∀ payloads, sendAll sanitize payloads w' = (Ok tt, w').
Proof.
  intros Hclosed Hsanitize Hsignal w'. split.
  - destruct w as [[chunks closed serr] log]. simpl in *. subst.
    unfold sendMessage, tryCatch, bind, liftResult, ret, throw, markClosed. simpl.
    by rewrite Hsanitize, Hsignal.
  - intros payloads. by apply sendAll_closed.
Qed.

Lemma sendMessage_sanitizer_error_witness :
  sendMessage (λ _, Throw (TypeError "Invalid state: value is detached")) samplePayload
    (mkWorld (mkController [] false None) [])
  = (Ok tt, mkWorld (mkController [] true None) []).
Proof.
  exact (proj1 (sendMessage_sanitizer_error_mistaken_for_closed_stream
                  (λ _, Throw (TypeError "Invalid state: value is detached")) samplePayload
                  (mkWorld (mkController [] false None) [])
                  (TypeError "Invalid state: value is detached")
                  eq_refl eq_refl eq_refl)).
Defined.

(** *** [normalizeMarkdownContent] *)

Lemma normalizeMarkdownContent_unfold (c : ascii) (rest : string) :
  normalizeMarkdownContent (String c rest)
  = if decide (c = "092"%char) then
      match rest with
      | String c' rest' =>
          if decide (c' = "n"%char) then String "010" (normalizeMarkdownContent rest')
          else String c (normalizeMarkdownContent rest)
      | EmptyString => String c EmptyString
      end
    else String c (normalizeMarkdownContent rest).
Proof.
  destruct (decide (c = "092"%char)) as [-> | Hc].
  - destruct rest as [|c' rest']; [done |].
    destruct (decide (c' = "n"%char)) as [-> | Hc']; [done |].
    destruct c' as [[] [] [] [] [] [] [] []]; try done.
  - destruct c as [[] [] [] [] [] [] [] []]; try done.
Qed.

#[local] Arguments normalizeMarkdownContent : simpl never.

Lemma normalizeMarkdownContent_head (s : string) (c : ascii) (rest : string) :
  normalizeMarkdownContent s = String c rest →
  c = "010"%char ∨ ∃ tail, s = String c tail.
Proof.
  destruct s as [|a s]; [done |]. rewrite normalizeMarkdownContent_unfold.
  repeat case_match; intros [= <- <-]; eauto.
Qed.

Lemma startsWith_escape_cons (c : ascii) (s : string) :
  Js.startsWith (JsVal.backslash +:+ "n") (String c s)
  = bool_decide (c = "092"%char) && Js.startsWith "n" s.
Proof.
  change (JsVal.backslash +:+ "n") with (String "092" "n"). simpl.
  destruct (decide ("092"%char = c)) as [<- | Hne]; [done |].
  rewrite bool_decide_eq_false_2; [done | congruence].
Qed.

Lemma normalizeMarkdownContent_no_escape_at_head (s : string) :
  Js.startsWith (JsVal.backslash +:+ "n") (normalizeMarkdownContent s) = false.
Proof.
  destruct s as [|c s]; [done |]. rewrite normalizeMarkdownContent_unfold.
  destruct (decide (c = "092"%char)) as [-> | Hc].
  - destruct s as [|c' s']; [done |].
    destruct (decide (c' = "n"%char)) as [-> | Hc']; [done |].
    rewrite startsWith_escape_cons. simpl.
    destruct (normalizeMarkdownContent (String c' s')) as [|a t] eqn:Hn; [done |].
    apply normalizeMarkdownContent_head in Hn as [-> | [tail [= <- _]]]; simpl.
    + done.
    + destruct (decide ("n"%char = c')); [congruence | done].
  - rewrite startsWith_escape_cons. by rewrite bool_decide_eq_false_2.
Qed.

Lemma normalizeMarkdownContent_includes (n : nat) (s : string) :
  (String.length s ≤ n)%nat →
  Js.includes (normalizeMarkdownContent s) (JsVal.backslash +:+ "n") = false.
Proof.
  revert s. induction n as [|n IH]; intros s Hlen.
  - destruct s; [done | simpl in Hlen; lia].
  - destruct s as [|c s]; [done |].
    pose proof (normalizeMarkdownContent_no_escape_at_head (String c s)) as Hhead.
    rewrite normalizeMarkdownContent_unfold in *. simpl in Hlen.
    destruct (decide (c = "092"%char)) as [-> | Hc].
    + destruct s as [|c' s']; [done |].
      destruct (decide (c' = "n"%char)) as [-> | Hc'].
      * change (Js.includes (String "010" ?t) ?w)
          with (Js.startsWith w (String "010" t) || Js.includes t w).
        rewrite Hhead. simpl. apply IH. simpl in Hlen. lia.
      * change (Js.includes (String ?a ?t) ?w)
          with (Js.startsWith w (String a t) || Js.includes t w).
        rewrite Hhead. simpl. apply IH. lia.
    + change (Js.includes (String ?a ?t) ?w)
        with (Js.startsWith w (String a t) || Js.includes t w).
      rewrite Hhead. simpl. apply IH. lia.
Qed.

Lemma normalizeMarkdownContent_fixed (n : nat) (s : string) :
  (String.length s ≤ n)%nat →
  Js.includes s (JsVal.backslash +:+ "n") = false → normalizeMarkdownContent s = s.
Proof.
  revert s. induction n as [|n IH]; intros s Hlen.
  - destruct s; [done | simpl in Hlen; lia].
  - destruct s as [|c s]; [done |]. simpl in Hlen.
    change (Js.includes (String c s) ?w)
      with (Js.startsWith w (String c s) || Js.includes s w).
    intros Hno. apply orb_false_iff in Hno as [Hhead Htail].
    rewrite normalizeMarkdownContent_unfold.
    rewrite startsWith_escape_cons in Hhead.
    destruct (decide (c = "092"%char)) as [-> | Hc].
    + destruct s as [|c' s']; [done |]. simpl in Hhead.
      destruct (decide (c' = "n"%char)) as [-> | Hc']; [done |].
      f_equal. apply IH; [lia | done].
    + f_equal. apply IH; [lia | done].
Qed.

Lemma normalizeMarkdownContent_length (n : nat) (s : string) :
  (String.length s ≤ n)%nat →
  (String.length (normalizeMarkdownContent s) ≤ String.length s)%nat.
Proof.
  revert s. induction n as [|n IH]; intros s Hlen.
  - destruct s; [done | simpl in Hlen; lia].
  - destruct s as [|c s]; [done |]. simpl in Hlen.
    rewrite normalizeMarkdownContent_unfold.
    destruct (decide (c = "092"%char)) as [-> | Hc].
    + destruct s as [|c' s']; [done |]. simpl in Hlen.
      destruct (decide (c' = "n"%char)) as [-> | Hc']; cbn [String.length].
      * specialize (IH s' ltac:(lia)). lia.
      * specialize (IH (String c' s') ltac:(simpl; lia)). simpl in IH. lia.
    + cbn [String.length]. specialize (IH s ltac:(lia)). lia.
Qed.

(** After [normalizeMarkdownContent] no backslash followed by [n] is left,
    so normalizing twice is normalizing once; a content without such a
    pair is returned as it is, and the result is never longer than the
    content. *)
Theorem normalizeMarkdownContent_removes_every_escape (content : string) :
  Js.includes (normalizeMarkdownContent content) (JsVal.backslash +:+ "n") = false
  ∧ normalizeMarkdownContent (normalizeMarkdownContent content)
    = normalizeMarkdownContent content
  ∧ (Js.includes content (JsVal.backslash +:+ "n") = false →
     normalizeMarkdownContent content = content)
  ∧ (String.length (normalizeMarkdownContent content) ≤ String.length content)%nat.
Proof.
  pose proof (normalizeMarkdownContent_includes (String.length content) content
                (Nat.le_refl _)) as Hno.
  split; [done |]. split; [| split].
  - by apply (normalizeMarkdownContent_fixed _ _ (Nat.le_refl _)).
  - by apply (normalizeMarkdownContent_fixed _ _ (Nat.le_refl _)).
  - by apply (normalizeMarkdownContent_length _ _ (Nat.le_refl _)).
Qed.

Lemma normalizeMarkdownContent_witness_plain_text :
  normalizeMarkdownContent "plain text" = "plain text".
Proof.
  destruct (normalizeMarkdownContent_removes_every_escape "plain text") as (_ & _ & H & _).
  apply H. vm_compute. reflexivity.
Defined.

(** ** Further properties of the stream reducer *)

(** An event that is not an [answer] event leaves the answer and the
    thinking process of its item as they were, and no event touches the
    items of other ids held by the reducer. *)
Theorem handleThreadItemUpdate_frame (now : Z) (threadId' threadItemId eventType : string)
    (eventData : EventData) (parentThreadItemId : option string) (shouldPersistToDB : bool)
    (agent : AgentState) :
  let agent' :=
    handleThreadItemUpdate now threadId' threadItemId eventType eventData
      parentThreadItemId shouldPersistToDB agent in
  (∀ other, other ≠ threadItemId →
     threadItemMap agent' !! other = threadItemMap agent !! other)
  ∧ (eventType ≠ "answer" →
     storedAnswer agent' threadItemId = storedAnswer agent threadItemId
     ∧ (threadItemMap agent' !! threadItemId) ≫= thinkingProcess
       = (threadItemMap agent !! threadItemId) ≫= thinkingProcess).
Proof.
  intros agent'. split.
  - intros other Hother. subst agent'. unfold handleThreadItemUpdate. simpl.
    by rewrite lookup_insert_ne.
  - intros Htype. subst agent'. unfold storedAnswer.
    rewrite handleThreadItemUpdate_stored. unfold updatedItemOf. simpl.
    rewrite bool_decide_eq_false_2 by done. done.
Qed.

Lemma handleThreadItemUpdate_frame_witness :
  storedAnswer
    (handleThreadItemUpdate 3 "thread-1" "item-1" "sources"
       (mkEventData None None [("sources", JArr [])]) None true
       (handleThreadItemUpdate 1 "thread-1" "item-1" "answer"
          (answerData [("text", JStr "Hel")]) None false (freshAgent 0)))
    "item-1"
  = storedAnswer
      (handleThreadItemUpdate 1 "thread-1" "item-1" "answer"
         (answerData [("text", JStr "Hel")]) None false (freshAgent 0))
      "item-1".
Proof.
  destruct (handleThreadItemUpdate_frame 3 "thread-1" "item-1" "sources"
              (mkEventData None None [("sources", JArr [])]) None true
              (handleThreadItemUpdate 1 "thread-1" "item-1" "answer"
                 (answerData [("text", JStr "Hel")]) None false (freshAgent 0)))
    as [_ Hkeep].
  exact (proj1 (Hkeep ltac:(discriminate))).
Defined.

Lemma applyEvents_cons (threadId' threadItemId : string)
    (event : Z * string * EventData * option string * bool)
    (events : list (Z * string * EventData * option string * bool)) (agent : AgentState) :
  applyEvents threadId' threadItemId (event :: events) agent
  = applyEvents threadId' threadItemId events
      (handleThreadItemUpdate event.1.1.1.1 threadId' threadItemId event.1.1.1.2
         event.1.1.2 event.1.2 event.2 agent).
Proof. reflexivity. Qed.

Lemma applyEvents_identity (threadId' threadItemId : string)
    (events : list (Z * string * EventData * option string * bool)) (agent : AgentState)
    (item : ThreadItem) :
  threadItemMap agent !! threadItemId = Some item →
  ∃ item',
    threadItemMap (applyEvents threadId' threadItemId events agent) !! threadItemId
    = Some item'
    ∧ createdAt item' = createdAt item
    ∧ (id item = threadItemId → id item' = threadItemId)
    ∧ (threadId item = threadId' → threadId item' = threadId')
    ∧ (∀ root, branchRootId item = Some root → truthy root = true →
         branchRootId item' = Some root).
Proof.
  revert agent item. induction events as [|event events IH]; intros agent item Hitem.
  - exists item. eauto.
  - rewrite applyEvents_cons.
    edestruct IH as (item' & Hstored & Hcreated & Hid & Hthread & Hroot).
    { apply handleThreadItemUpdate_stored. }
    exists item'. split; [done |]. rewrite Hitem in *. simpl in *.
    split; [done |]. split; [auto |]. split; [auto |].
    intros root Hr Htruthy. apply Hroot; [| done].
    rewrite Hr. simpl. by rewrite Htruthy.
Qed.

(** However many events of whatever types are handled for an item, the
    item held by the reducer keeps the id and the thread of the events, the
    creation time it had before (the time of the first event when it is
    new), and, when the item id is not empty, the branch root fixed by the
    first event. *)
Theorem applyEvents_keeps_identity_and_creation_time (threadId' threadItemId : string)
    (event : Z * string * EventData * option string * bool)
    (events : list (Z * string * EventData * option string * bool)) (agent : AgentState) :
  let prevItem := threadItemMap agent !! threadItemId in
  ∃ item,
    threadItemMap (applyEvents threadId' threadItemId (event :: events) agent)
      !! threadItemId = Some item
    ∧ id item = threadItemId ∧ threadId item = threadId'
    ∧ createdAt item = default event.1.1.1.1 (createdAt <$> prevItem)
    ∧ (truthy threadItemId = true →
       branchRootId item
       = Some (default (default threadItemId (orStr event.1.2 None))
                 (orStr (prevItem ≫= branchRootId) None))).
Proof.
  intros prevItem. rewrite applyEvents_cons.
  edestruct (applyEvents_identity threadId' threadItemId events)
    as (item & Hstored & Hcreated & Hid & Hthread & Hroot).
  { apply handleThreadItemUpdate_stored. }
  exists item. split; [done |]. fold prevItem in Hcreated, Hroot. simpl in *.
  split; [auto |]. split; [auto |]. split; [done |].
  intros Htruthy. apply Hroot; [done |].
  destruct (orStr (prevItem ≫= branchRootId) None) as [root|] eqn:Hprev; simpl.
  - unfold orStr in Hprev. destruct (prevItem ≫= branchRootId) as [r|]; [| done].
    destruct (truthy r) eqn:Hr; by simplify_eq.
  - destruct (orStr event.1.2 None) as [parent|] eqn:Hparent; simpl; [| done].
    unfold orStr in Hparent. destruct event.1.2 as [p|]; [| done].
    destruct (truthy p) eqn:Hp; by simplify_eq.
Qed.

Lemma applyEvents_identity_witness :
  ∃ item,
    threadItemMap
      (applyEvents "thread-1" "item-1"
         [(5, "status", mkEventData None None [("status", JStr "PENDING")], Some "item-0", true);
          (9, "answer", answerData [("text", JStr "Hi")], None, false)]
         (freshAgent 0)) !! "item-1" = Some item
    ∧ id item = "item-1" ∧ threadId item = "thread-1"
    ∧ createdAt item = 5
    ∧ branchRootId item = Some "item-0".
Proof.
  destruct (applyEvents_keeps_identity_and_creation_time "thread-1" "item-1"
              (5, "status", mkEventData None None [("status", JStr "PENDING")],
               Some "item-0", true)
              [(9, "answer", answerData [("text", JStr "Hi")], None, false)]
              (freshAgent 0)) as (item & Hstored & Hid & Hthread & Hcreated & Hroot).
  exists item. split; [exact Hstored |]. split; [exact Hid |]. split; [exact Hthread |].
  split; [exact Hcreated |]. exact (Hroot eq_refl).
Defined.

Lemma nextAnswer_without_snapshot (prevAnswer : option Answer)
    (incoming : list (string * JsValue)) (previousFinal : string) :
  snapshotOf incoming = None →
  prevAnswer ≫= finalText = Some previousFinal → truthy previousFinal = true →
  finalText (nextAnswer prevAnswer incoming) = Some previousFinal
  ∧ text (nextAnswer prevAnswer incoming)
    = Some (previousText prevAnswer +:+ deltaOf incoming).
Proof.
  intros Hsnapshot Hfinal Htruthy. simpl.
  rewrite resolvedText_mergedText. unfold mergedText. rewrite Hsnapshot. split; [| done].
  unfold resolvedFinalText, hasFinalText, hasFullText, incomingFinalText, incomingFullText,
    isNonBlankString.
  unfold snapshotOf in Hsnapshot.
  destruct prevAnswer as [[t f s r]|]; [| done]. simpl in Hfinal. subst f.
  unfold previousAnswer. simpl. rewrite Htruthy.
  destruct (JsVal.getProp incoming "finalText") as [| | | | |final| |];
    destruct (JsVal.getProp incoming "fullText") as [| | | | |full| |];
    simpl; try done; repeat (case_match; simpl; try done).
Qed.

(** Without a snapshot the stored [finalText] is frozen: once it is a
    non-empty string, every sequence of [answer] events that carry only
    deltas leaves it as it is, while the text grows by the deltas. *)
Theorem finalText_is_frozen_by_delta_only_events (threadId' threadItemId : string)
    (events : list (Z * EventData * option string * bool)) (agent : AgentState)
    (previousFinal : string) :
  storedAnswer agent threadItemId ≫= finalText = Some previousFinal →
  truthy previousFinal = true →
  Forall (λ ev, snapshotOf (default [] (ev_answer ev.1.1.2)) = None) events →
  let agent' := applyAnswerEvents threadId' threadItemId events agent in
  storedAnswer agent' threadItemId ≫= finalText = Some previousFinal
  ∧ previousText (storedAnswer agent' threadItemId)
    = foldl (λ acc ev, acc +:+ deltaOf (default [] (ev_answer ev.1.1.2)))
        (previousText (storedAnswer agent threadItemId)) events.
Proof.
  intros Hfinal Htruthy Hall. revert agent Hfinal.
  induction Hall as [|event events Hevent _ IH]; intros agent Hfinal; [done |].
  change (applyAnswerEvents threadId' threadItemId (event :: events) agent)
    with (applyAnswerEvents threadId' threadItemId events
            (handleThreadItemUpdate event.1.1.1 threadId' threadItemId "answer"
               event.1.1.2 event.1.2 event.2 agent)).
  destruct (nextAnswer_without_snapshot (storedAnswer agent threadItemId) _ _
              Hevent Hfinal Htruthy) as [Hf Ht].
  cbn zeta in IH |- *.
  destruct (IH (handleThreadItemUpdate event.1.1.1 threadId' threadItemId "answer"
                  event.1.1.2 event.1.2 event.2 agent)) as [IHf IHt].
  { rewrite storedAnswer_handleThreadItemUpdate. exact Hf. }
  split; [exact IHf |]. rewrite IHt.
  rewrite storedAnswer_handleThreadItemUpdate. cbn [foldl].
  rewrite previousText_nextAnswer, resolvedText_mergedText. unfold mergedText.
  by rewrite Hevent.
Qed.

Lemma finalText_is_frozen_witness :
  storedAnswer
    (applyAnswerEvents "thread-1" "item-1"
       [(3, answerData [("text", JStr " world")], None, false)]
       (applyAnswerEvents "thread-1" "item-1"
          [(1, answerData [("text", JStr "Hel")], None, false);
           (2, answerData [("text", JStr "lo")], None, false)]
          (freshAgent 0)))
    "item-1" ≫= finalText = Some "Hel".
Proof.
  apply (finalText_is_frozen_by_delta_only_events "thread-1" "item-1"
           [(3, answerData [("text", JStr " world")], None, false)]
           (applyAnswerEvents "thread-1" "item-1"
              [(1, answerData [("text", JStr "Hel")], None, false);
               (2, answerData [("text", JStr "lo")], None, false)]
              (freshAgent 0))
           "Hel").
  - vm_compute. reflexivity.
  - reflexivity.
  - repeat constructor.
Defined.

(** ** Further properties of the chat store *)

Lemma mapSet_subset {A} (key : string) (value : A) (entries : list (string * A))
    (e : string * A) :
  e ∈ mapSet key value entries → e = (key, value) ∨ e ∈ entries.
Proof.
  induction entries as [|[k v] entries IH]; simpl.
  - intros H. apply list_elem_of_singleton in H. auto.
  - case_bool_decide as Hk; subst; rewrite !elem_of_cons; naive_solver.
Qed.

Lemma mapSet_keys {A} (key : string) (value : A) (entries : list (string * A)) :
  (mapSet key value entries).*1
  = if bool_decide (key ∈ entries.*1) then entries.*1 else (entries.*1 ++ [key])%list.
Proof.
  induction entries as [|[k v] entries IH]; [reflexivity |].
  cbn [mapSet]. destruct (decide (k = key)) as [-> | Hk].
  - rewrite bool_decide_eq_true_2 by done. rewrite !fmap_cons. cbn [fst].
    rewrite bool_decide_eq_true_2 by set_solver. done.
  - rewrite bool_decide_eq_false_2 by done. rewrite !fmap_cons, IH. cbn [fst].
    destruct (decide (key ∈ entries.*1)).
    + rewrite !bool_decide_eq_true_2 by set_solver. done.
    + rewrite !bool_decide_eq_false_2 by set_solver. done.
Qed.

Lemma mapSet_NoDup {A} (key : string) (value : A) (entries : list (string * A)) :
  NoDup entries.*1 → NoDup (mapSet key value entries).*1.
Proof.
  intros Hnodup. rewrite mapSet_keys. case_bool_decide as Hk; [done |].
  apply NoDup_app. split; [done |]. split; [| apply NoDup_singleton].
  intros x Hx Hx'. apply list_elem_of_singleton in Hx'. by subst.
Qed.

Lemma mapGet_mapSet {A} (key key' : string) (value : A) (entries : list (string * A)) :
  mapGet key' (mapSet key value entries)
  = if decide (key' = key) then Some value else mapGet key' entries.
Proof.
  unfold mapGet. induction entries as [|[k v] entries IH]; simpl.
  - destruct (decide (key' = key)) as [-> | Hne].
    + by rewrite bool_decide_eq_true_2.
    + rewrite bool_decide_eq_false_2; [done | congruence].
  - destruct (decide (k = key)) as [-> | Hk].
    + rewrite bool_decide_eq_true_2 by done. simpl.
      destruct (decide (key' = key)) as [-> | Hne].
      * by rewrite bool_decide_eq_true_2.
      * rewrite !bool_decide_eq_false_2 by congruence. done.
    + rewrite bool_decide_eq_false_2 by done. simpl.
      destruct (decide (k = key')) as [-> | Hk'].
      * rewrite bool_decide_eq_true_2 by done. simpl.
        destruct (decide (key' = key)); [congruence | done].
      * rewrite bool_decide_eq_false_2 by done. apply IH.
Qed.

Lemma mapSet_length {A} (key : string) (value : A) (entries : list (string * A)) :
  length (mapSet key value entries)
  = match mapGet key entries with
    | Some _ => length entries
    | None => S (length entries)
    end.
Proof.
  unfold mapGet. induction entries as [|[k v] entries IH]; simpl; [done |].
  case_bool_decide; simpl; [done |]. rewrite IH.
  by destruct (find _ entries).
Qed.

Lemma queueThreadItemForUpdate_queueOk (now : Z) (threadItem : ThreadItem) (env0 : Env) :
  queueOk (batchUpdateQueue env0) →
  queueOk (batchUpdateQueue (queueThreadItemForUpdate now threadItem env0)).
Proof.
  intros (Hnodup & Hids & Htimer). unfold queueOk. simpl. split; [| split].
  - by apply mapSet_NoDup.
  - intros key item H. apply mapSet_subset in H as [[= -> ->] | H]; [done | by apply Hids].
  - intros _. destruct (timeoutId (batchUpdateQueue env0)); eauto.
Qed.

Lemma runTimers_queueOk (now : Z) (env0 : Env) :
  queueOk (batchUpdateQueue env0) → queueOk (batchUpdateQueue (runTimers now env0)).
Proof.
  intros Hok. unfold runTimers.
  destruct (timeoutId (batchUpdateQueue env0)) as [due|]; [| done].
  destruct (due <=? now); [| done].
  unfold batchTimerFires, processBatchUpdate.
  destruct (items (batchUpdateQueue env0)) eqn:Hitems; simpl.
  - rewrite Hitems. split; [constructor |]. split; [intros ? ? H; by apply elem_of_nil in H | done].
  - split; [constructor |]. split; [intros ? ? H; by apply elem_of_nil in H | done].
Qed.

Lemma updateThreadItem_queueOk (now : Z) (threadId' : string) (threadItem : PartialThreadItem)
    (env0 : Env) :
  queueOk (batchUpdateQueue env0) →
  queueOk (batchUpdateQueue (updateThreadItem now threadId' threadItem env0)).
Proof.
  intros Hok. unfold updateThreadItem.
  destruct (p_id threadItem) as [itemId|]; [| done].
  destruct (negb (truthy itemId)); [done |].
  destruct (negb (truthy threadId')); [done |].
  by apply queueThreadItemForUpdate_queueOk.
Qed.

Lemma handleStreamEvent_queueOk (ev : StreamEvent) (agent : AgentState) :
  queueOk (batchUpdateQueue (env agent)) →
  queueOk (batchUpdateQueue (env (handleStreamEvent ev agent))).
Proof.
  intros Hok. pose proof (runTimers_queueOk (se_time ev) _ Hok) as Hok'.
  unfold handleStreamEvent.
  repeat (case_match; simpl; try done);
    unfold handleThreadItemUpdate; simpl; by apply updateThreadItem_queueOk.
Qed.

(** Throughout a streamed run the write queue stays well formed: at most
    one pending version per item, filed under the item's id, and whenever
    an update waits in the queue a flush timer is pending, so that no
    update is left behind without a flush. *)
Theorem runAgentLoop_keeps_the_queue_well_formed (start : Z) (events : list StreamEvent)
    (threadItemMap0 : gmap string ThreadItem) (env0 : Env) :
  queueOk (batchUpdateQueue env0) →
  queueOk (batchUpdateQueue (env (runAgentLoop start events threadItemMap0 env0))).
Proof.
  intros Hok. unfold runAgentLoop.
  change env0 with (env (mkAgentState threadItemMap0 start env0)) in Hok.
  revert Hok. generalize (mkAgentState threadItemMap0 start env0).
  induction events as [|ev events IH]; intros agent Hok; [done |].
  simpl. apply IH. by apply handleStreamEvent_queueOk.
Qed.

Lemma runAgentLoop_queue_witness :
  queueOk
    (batchUpdateQueue
       (env (runAgentLoop 0 [answerFrame 100 "Hel"; answerFrame 700 "lo"] ∅ emptyEnv))).
Proof.
  apply (runAgentLoop_keeps_the_queue_well_formed 0
           [answerFrame 100 "Hel"; answerFrame 700 "lo"] ∅ emptyEnv).
  split; [constructor |]. split; [intros ? ? H; by apply elem_of_nil in H | done].
Defined.

(** Queuing an item files its normalized version under its id, replacing
    the version that waited there and leaving the other entries alone, and
    never postpones a flush that is already scheduled: the timer is set,
    [BATCH_PROCESS_INTERVAL] ahead, only when none is pending. *)
Theorem queueThreadItemForUpdate_coalesces (now : Z) (threadItem : ThreadItem) (env0 : Env) :
  let queue := batchUpdateQueue env0 in
  let queue' := batchUpdateQueue (queueThreadItemForUpdate now threadItem env0) in
  mapGet (id threadItem) (items queue') = Some (ensureBranchRootId threadItem None)
  ∧ (∀ key, key ≠ id threadItem → mapGet key (items queue') = mapGet key (items queue))
  ∧ length (items queue')
    = match mapGet (id threadItem) (items queue) with
      | Some _ => length (items queue)
      | None => S (length (items queue))
      end
  ∧ timeoutId queue' = Some (default (now + 500) (timeoutId queue))
  ∧ bulkPuts (queueThreadItemForUpdate now threadItem env0) = bulkPuts env0.
Proof.
  simpl. split; [| split; [| split; [| split]]].
  - rewrite mapGet_mapSet. by rewrite decide_True.
  - intros key Hkey. rewrite mapGet_mapSet. by rewrite decide_False.
  - apply mapSet_length.
  - by destruct (timeoutId (batchUpdateQueue env0)).
  - done.
Qed.

Lemma mapSet_not_nil {A} (key : string) (value : A) (entries : list (string * A)) :
  mapSet key value entries ≠ [].
Proof. destruct entries as [|[k v] entries]; simpl; [done |]. by case_bool_decide. Qed.

(** An update with an item id and a thread id is at once visible in the
    store and queued for writing in the same version: the store holds
    exactly one more item when the id is new and as many as before when it
    is not, the item found under the id has a branch root and the time of
    the update, and that very item is what waits in the write queue; when
    the flush timer fires it is written, and the queue is empty again. *)
Theorem updateThreadItem_shows_what_it_persists (now : Z) (threadId' itemId : string)
    (threadItem : PartialThreadItem) (env0 : Env) :
  p_id threadItem = Some itemId → truthy itemId = true → truthy threadId' = true →
  let existingItem := find (λ t, bool_decide (id t = itemId)) (threadItems (state env0)) in
  let env1 := updateThreadItem now threadId' threadItem env0 in
  ∃ item due,
    find (λ t, bool_decide (id t = itemId)) (threadItems (state env1)) = Some item
    ∧ id item = itemId
    ∧ is_Some (branchRootId item)
    ∧ (is_Some existingItem → threadId item = threadId' ∧ updatedAt item = now)
    ∧ length (threadItems (state env1))
      = match existingItem with
        | Some _ => length (threadItems (state env0))
        | None => S (length (threadItems (state env0)))
        end
    ∧ mapGet itemId (items (batchUpdateQueue env1)) = Some item
    ∧ timeoutId (batchUpdateQueue env1) = Some due
    ∧ ∀ later, due ≤ later →
        items (batchUpdateQueue (runTimers later env1)) = []
        ∧ bulkPuts (runTimers later env1)
          = (bulkPuts env0 ++ [(due, map snd (items (batchUpdateQueue env1)))])%list.
Proof.
  intros Hid Hitem Hthread existingItem env1.
  subst env1. unfold updateThreadItem. rewrite Hid, Hitem, Hthread. simpl.
  fold existingItem.
  set (updatedItem :=
         ensureBranchRootId
           match existingItem with
           | Some existing => mergeIntoExisting now threadId' existing threadItem
           | None => newFromPartial now threadId' itemId threadItem
           end
           (orStr (existingItem ≫= branchRootId) (default None (p_branchRootId threadItem)))).
  assert (Hupdated : id updatedItem = itemId).
  { subst updatedItem. rewrite ?id_ensureBranchRootId.
    destruct existingItem; simpl; by rewrite ?Hid. }
  exists (ensureBranchRootId updatedItem None),
    (default (now + BATCH_PROCESS_INTERVAL) (timeoutId (batchUpdateQueue env0))).
  split; [by apply find_replaceOrPush |].
  split; [done |]. split; [by eexists |].
  split.
  { intros [existing Hexisting]. subst updatedItem. rewrite Hexisting. done. }
  split.
  { rewrite length_map, length_replaceOrPush. done. }
  split.
  { rewrite mapGet_mapSet. rewrite ?id_ensureBranchRootId. simpl.
    rewrite ?Hupdated. by rewrite decide_True. }
  split; [by destruct (timeoutId (batchUpdateQueue env0)) |].
  intros later Hlater. unfold runTimers. simpl.
  assert (Htimer : match timeoutId (batchUpdateQueue env0) with
                   | Some due => Some due
                   | None => Some (now + BATCH_PROCESS_INTERVAL)
                   end
                   = Some (default (now + BATCH_PROCESS_INTERVAL)
                             (timeoutId (batchUpdateQueue env0))))
    by (by destruct (timeoutId (batchUpdateQueue env0))).
  rewrite Htimer. rewrite (proj2 (Z.leb_le _ _) Hlater).
  unfold batchTimerFires, processBatchUpdate. simpl.
  destruct (mapSet _ _ _) as [|first rest] eqn:Hqueue; simpl; [| done].
  by apply mapSet_not_nil in Hqueue.
Qed.

Lemma updateThreadItem_witness_status_update :
  ∃ item due,
    find (λ t, bool_decide (id t = "item-1"))
      (threadItems (state (updateThreadItem 40 "thread-1"
                             (statusUpdate "item-1" "COMPLETED" None) emptyEnv)))
    = Some item
    ∧ id item = "item-1"
    ∧ mapGet "item-1"
        (items (batchUpdateQueue (updateThreadItem 40 "thread-1"
                                    (statusUpdate "item-1" "COMPLETED" None) emptyEnv)))
      = Some item
    ∧ due = 540.
Proof.
  destruct (updateThreadItem_shows_what_it_persists 40 "thread-1" "item-1"
              (statusUpdate "item-1" "COMPLETED" None) emptyEnv eq_refl eq_refl eq_refl)
    as (item & due & Hfind & Hid & _ & _ & _ & Hqueue & Hdue & _).
  exists item, due. split; [exact Hfind |]. split; [exact Hid |]. split; [exact Hqueue |].
  vm_compute in Hdue. congruence.
Defined.

Lemma pruneBranchSelections_falsy_is_last (state0 : State) (rootId selectedId : string)
    (group : list ThreadItem) (lastItem : ThreadItem) :
  branchSelections (pruneBranchSelections state0) !! rootId = Some selectedId →
  truthy selectedId = false →
  buildBranchGroups (threadItems (pruneBranchSelections state0)) !! rootId = Some group →
  last group = Some lastItem →
  selectedId = id lastItem.
Proof.
  intros Hsel Hfalsy Hgroup Hlast.
  rewrite pruneBranchSelections_lookup, Hgroup in Hsel.
  unfold defaultedValue in Hsel. simpl in Hsel. rewrite Hlast in Hsel.
  destruct (match branchSelections state0 !! rootId with Some _ => _ | None => _ end)
    as [current|]; simpl in Hsel.
  - destruct (truthy current) eqn:Hcurrent; simpl in Hsel; simplify_eq; [congruence | done].
  - by simplify_eq.
Qed.

(** Pruning is idempotent: pruning a pruned state changes neither the
    thread items nor the selections. *)
Theorem pruneBranchSelections_idempotent (state0 : State) :
  pruneBranchSelections (pruneBranchSelections state0) = pruneBranchSelections state0.
Proof.
  pose proof (pruneBranchSelections_consistent state0) as [Hmember Hsome].
  pose proof (pruneBranchSelections_falsy_is_last state0) as Hfalsy.
  assert (Hitems : threadItems (pruneBranchSelections (pruneBranchSelections state0))
                   = threadItems (pruneBranchSelections state0)).
  { rewrite !threadItems_pruneBranchSelections.
    apply map_ensureBranchRootId_idempotent. }
  remember (pruneBranchSelections state0) as state1 eqn:Hstate1. clear Hstate1.
  assert (Hselections :
            branchSelections (pruneBranchSelections state1) = branchSelections state1).
  { apply map_eq. intros rootId.
    pose proof (buildBranchGroups_groupsOf (threadItems state1)) as [Hgroups _].
    destruct (branchSelections state1 !! rootId) as [selectedId|] eqn:Hsel.
    - destruct (Hmember _ _ Hsel) as (group & item & Hgroup & Hin & Hid).
      destruct (Hgroups _ _ Hgroup) as (Hnil & _ & Hmem).
      destruct (last group) as [lastItem|] eqn:Hlast; [| by apply last_None in Hlast].
      destruct (truthy selectedId) eqn:Htruthy.
      + apply (pruneBranchSelections_keeps state1 rootId selectedId group item);
          try done. by rewrite Hitems.
      + assert (selectedId = id lastItem) as -> by (by apply (Hfalsy rootId _ group)).
        rewrite pruneBranchSelections_lookup, Hitems, Hgroup, Hsel.
        unfold defaultedValue, prunedValue. simpl. rewrite Hlast, Hgroup. simpl.
        rewrite Hlast. simpl. destruct (existsb _ _ && _); simpl; by destruct (negb _).
    - rewrite pruneBranchSelections_lookup, Hitems.
      destruct (buildBranchGroups (threadItems state1) !! rootId) as [group|] eqn:Hgroup;
        [| done].
      destruct (Hgroups _ _ Hgroup) as (Hnil & _ & _).
      destruct (Hsome _ _ Hgroup Hnil) as [x Hx]. congruence. }
  destruct (pruneBranchSelections state1) as [items2 selections2 current2] eqn:Hstate2.
  simpl in Hitems, Hselections. subst items2 selections2.
  assert (current2 = currentThreadId state1) as ->.
  { change current2 with (currentThreadId (mkState (threadItems state1)
                                            (branchSelections state1) current2)).
    by rewrite <- Hstate2. }
  by destruct state1.
Qed.

(** A created item with a non-empty id becomes the selected member of its
    own branch group when the write to the database succeeded: the store
    holds it with a branch root, and the selection of that root is its id.
    When the write is rejected the store is left as it was. *)
Theorem createThreadItem_selects_the_new_item (threadItem : ThreadItem) (state0 : State)
    (threadId' : string) :
  orStr (Some (threadId threadItem)) (currentThreadId state0) = Some threadId' →
  truthy threadId' = true → truthy (id threadItem) = true →
  (let state1 := createThreadItem (Ok tt) threadItem state0 in
   ∃ stored rootId,
     find (λ t, bool_decide (id t = id threadItem)) (threadItems state1) = Some stored
     ∧ threadId stored = threadId'
     ∧ branchRootId stored = Some rootId
     ∧ branchSelections state1 !! rootId = Some (id threadItem))
  ∧ ∀ e, createThreadItem (Throw e) threadItem state0 = state0.
Proof.
  intros Hthread Htruthy Hid.
  split; [| intros e; unfold createThreadItem; by rewrite Hthread, Htruthy].
  intros state1. subst state1. unfold createThreadItem.
  rewrite Hthread, Htruthy. simpl.
  set (normalized :=
         ensureBranchRootId
           (mkThreadItem (id threadItem) threadId' (parentId threadItem)
              (branchRootId threadItem) (createdAt threadItem) (updatedAt threadItem)
              (answer threadItem) (thinkingProcess threadItem) (props threadItem))
           (branchRootId threadItem)).
  set (before :=
         mkState (replaceOrPush (id threadItem) normalized (threadItems state0))
           (<[resolveBranchRootId normalized := id threadItem]> (branchSelections state0))
           (currentThreadId state0)).
  assert (Hfind : find (λ t, bool_decide (id t = id threadItem))
                    (threadItems (pruneBranchSelections before)) = Some normalized).
  { rewrite threadItems_pruneBranchSelections. subst before. simpl.
    rewrite (find_replaceOrPush (id threadItem) normalized); [| done | done].
    f_equal. subst normalized. apply ensureBranchRootId_idempotent. }
  exists normalized, (resolveBranchRootId normalized).
  split; [exact Hfind |]. split; [done |].
  split.
  { subst normalized. by rewrite resolveBranchRootId_ensureBranchRootId_explicit. }
  apply find_some in Hfind as [Hin _]. apply list_elem_of_In in Hin.
  pose proof (buildBranchGroups_groupsOf (threadItems (pruneBranchSelections before)))
    as [Hgroups Hall].
  destruct (Hall _ Hin) as [group Hgroup].
  destruct (Hgroups _ _ Hgroup) as (_ & _ & Hmem).
  apply (pruneBranchSelections_keeps before _ _ group normalized); try done.
  - subst before. simpl. apply lookup_insert_eq.
  - by apply Hmem.
Qed.

Lemma createThreadItem_selects_witness :
  (∃ stored rootId,
     find (λ t, bool_decide (id t = "a3"))
       (threadItems
          (createThreadItem (Ok tt) (sampleItem "a3" (Some "q1") None 40) sampleState))
     = Some stored
     ∧ threadId stored = "thread-1"
     ∧ branchRootId stored = Some rootId
     ∧ branchSelections
         (createThreadItem (Ok tt) (sampleItem "a3" (Some "q1") None 40) sampleState)
         !! rootId
       = Some "a3")
  ∧ createThreadItem (Throw (Error "QuotaExceededError"))
      (sampleItem "a3" (Some "q1") None 40) sampleState
    = sampleState.
Proof.
  destruct (createThreadItem_selects_the_new_item (sampleItem "a3" (Some "q1") None 40)
              sampleState "thread-1" eq_refl eq_refl eq_refl) as [Hstored Hrejected].
  split; [exact Hstored | apply Hrejected].
Defined.

(** After an item is deleted (the deletion in the database succeeded and
    there is a current thread), the store holds no item of that id and no
    branch selection names it, whatever happens in the rest of the action. *)
Theorem deleteThreadItem_leaves_no_selection_of_it (remainingItems : Result nat)
    (threadDeleted : Result unit) (threads : list string) (threadItemId : string)
    (state0 : State) (threadId' : string) :
  currentThreadId state0 = Some threadId' → truthy threadId' = true →
  let state1 :=
    (deleteThreadItem (Ok tt) remainingItems threadDeleted threads threadItemId state0).2 in
  (∀ t, t ∈ threadItems state1 → id t ≠ threadItemId)
  ∧ (∀ rootId, branchSelections state1 !! rootId ≠ Some threadItemId).
Proof.
  intros Hcurrent Htruthy state1.
  destruct (deleteThreadItem_consistent remainingItems threadDeleted threads threadItemId
              state0 threadId' Hcurrent Htruthy) as [[Hmember _] Hitems].
  fold state1 in Hmember, Hitems.
  split; [exact Hitems |].
  intros rootId Hsel.
  destruct (Hmember _ _ Hsel) as (group & item & Hgroup & Hin & Hid).
  pose proof (buildBranchGroups_groupsOf (threadItems state1)) as [Hgroups _].
  destruct (Hgroups _ _ Hgroup) as (_ & _ & Hmem).
  apply Hmem in Hin as [Hin _]. by apply (Hitems item).
Qed.

Lemma deleteThreadItem_witness_selected_item :
  branchSelections sampleState !! "q1" = Some "a1"
  ∧ (∀ rootId,
       branchSelections
         (deleteThreadItem (Ok tt) (Ok 2%nat) (Ok tt) ["thread-1"] "a1" sampleState).2
         !! rootId
       ≠ Some "a1").
Proof.
  split; [vm_compute; reflexivity |].
  exact (proj2 (deleteThreadItem_leaves_no_selection_of_it (Ok 2%nat) (Ok tt) ["thread-1"]
                  "a1" sampleState "thread-1" eq_refl eq_refl)).
Defined.

(** ** Mode resolution on submit and in the completion route *)

Ltac mode_cases H :=
  repeat (apply elem_of_cons in H as [-> | H]); [.. | by apply elem_of_nil in H].

(** In Auto mode the mode resolved on submit can be served with the keys
    of the user exactly when the user has a Gemini key or an OpenRouter key;
    it is never [Auto], [Pro] or [Deep], and it comes with a reason. *)
Theorem resolveSubmittedMode_is_served_by_a_user_key (currentYear : Z)
    (userKeysSnapshot : ApiKeys) (query : string) (hasImage : bool) :
  let resolved := resolveSubmittedMode currentYear userKeysSnapshot Auto query hasImage in
  hasApiKeyForChatMode userKeysSnapshot resolved.1
  = hasKey (GEMINI_API_KEY userKeysSnapshot) || hasKey (OPENROUTER_API_KEY userKeysSnapshot)
  ∧ resolved.1 ∈ [GEMINI_2_5_FLASH; DEEPSEEK_CHAT_V3_1; DEEPSEEK_R1; LONGCAT_FLASH_CHAT;
                  GEMINI_2_5_PRO; GLM_4_5_AIR]
  ∧ is_Some resolved.2.
Proof.
  unfold resolveSubmittedMode, hasApiKeyForChatMode.
  pose proof (selectModelForQuery_range currentYear query hasImage) as Hselect.
  pose proof (selectOpenRouterFallback_range currentYear query) as Hor.
  pose proof (selectGeminiFallback_range query hasImage) as Hgemini.
  revert Hselect Hor Hgemini.
  generalize (selectModelForQuery currentYear query hasImage).
  generalize (selectOpenRouterFallback currentYear query).
  generalize (selectGeminiFallback query hasImage).
  generalize (getModelSelectionReason query).
  intros reason gemini openRouter selected Hselect Hor Hgemini.
  destruct (hasKey (GEMINI_API_KEY userKeysSnapshot)),
    (hasKey (OPENROUTER_API_KEY userKeysSnapshot));
    mode_cases Hselect; mode_cases Hor; mode_cases Hgemini;
    vm_compute; (split; [reflexivity | split; [set_solver | eauto]]).
Qed.

(** For a request in Auto mode the completion route takes nothing from the
    mode or the reason resolved by the client: it resolves the mode again
    from the prompt.  When it goes on, the mode is one of the six model
    modes, its provider has a key, and there is a reason; when it stops, the
    error is one of the three configuration errors. *)
Theorem resolveStreamMode_auto (currentYear : Z)
    (getProviderApiKey : ProviderEnumType → string) (dataMode : ChatMode)
    (dataModeSelectionReason : option string) (prompt : string)
    (hasImageAttachment : bool) :
  let result :=
    resolveStreamMode currentYear getProviderApiKey dataMode (Some Auto)
      dataModeSelectionReason prompt hasImageAttachment in
  result
  = resolveStreamMode currentYear getProviderApiKey Auto (Some Auto) None prompt
      hasImageAttachment
  ∧ match result with
    | Ok (resolvedMode, modeSelectionReason) =>
        resolvedMode ∈ [GEMINI_2_5_FLASH; DEEPSEEK_CHAT_V3_1; DEEPSEEK_R1;
                        LONGCAT_FLASH_CHAT; GEMINI_2_5_PRO; GLM_4_5_AIR]
        ∧ (∃ provider, getProviderForMode resolvedMode = Some provider
                       ∧ truthy (getProviderApiKey provider) = true)
        ∧ is_Some modeSelectionReason
    | Throw e =>
        e ∈ [Error "Image questions in Auto mode require a configured GEMINI_API_KEY. Please add your Gemini key or remove the image.";
             Error "Auto mode needs at least one provider configured. Please set OPENROUTER_API_KEY to enable OpenRouter models or add a personal key in Settings → API Keys.";
             Error "Auto mode needs a Gemini API key when OpenRouter is unavailable. Please set GEMINI_API_KEY or provide a personal key in Settings → API Keys."]
    end.
Proof.
  intros result. subst result. unfold resolveStreamMode. simpl.
  split.
  { destruct (ensureProviderAvailability _ _ _ _ _) as [fallback|e]; [| done].
    destruct (av_changed fallback); [| by rewrite orb_true_r].
    destruct (orStr (av_message fallback) None); [done | by rewrite orb_true_r]. }
  pose proof (selectModelForQuery_range currentYear prompt hasImageAttachment) as Hselect.
  destruct (ensureProviderAvailability currentYear getProviderApiKey
              (selectModelForQuery currentYear prompt hasImageAttachment) prompt
              hasImageAttachment) as [fallback|e] eqn:Hensure.
  - destruct (ensureProviderAvailability_Ok_inv _ _ _ _ _ _ Hensure)
      as (Hserved & Hsame & Hchanged).
    assert (Hmode : av_mode fallback
                    ∈ [GEMINI_2_5_FLASH; DEEPSEEK_CHAT_V3_1; DEEPSEEK_R1;
                       LONGCAT_FLASH_CHAT; GEMINI_2_5_PRO; GLM_4_5_AIR]).
    { destruct (av_changed fallback) eqn:Hc.
      - clear Hsame Hserved. revert Hensure. unfold ensureProviderAvailability.
        destruct (getProviderForMode _) as [provider|];
          [| intros [= <-]; discriminate Hc].
        destruct (truthy (getProviderApiKey provider));
          [intros [= <-]; discriminate Hc |].
        destruct provider.
        + destruct hasImageAttachment; [done |]. destruct (negb _); [done |].
          intros [= <-]. simpl.
          pose proof (selectOpenRouterFallback_range currentYear prompt) as H.
          revert H. generalize (selectOpenRouterFallback currentYear prompt).
          intros m H. mode_cases H; set_solver.
        + destruct (negb _); [done |]. intros [= <-]. simpl.
          pose proof (selectGeminiFallback_range prompt hasImageAttachment) as H.
          revert H. generalize (selectGeminiFallback prompt hasImageAttachment).
          intros m H. mode_cases H; set_solver.
      - destruct (Hsame eq_refl) as [-> _]. exact Hselect. }
    destruct (av_changed fallback) eqn:Hc.
    + destruct (orStr (av_message fallback) None); rewrite ?orb_true_r; eauto.
    + rewrite orb_true_r. destruct (Hsame eq_refl) as [Heq _].
      rewrite Heq in Hserved, Hmode. eauto.
  - revert Hensure. unfold ensureProviderAvailability.
    destruct (getProviderForMode _) as [provider|]; [| done].
    destruct (truthy (getProviderApiKey provider)); [done |].
    destruct provider.
    + destruct hasImageAttachment; [intros [= <-]; set_solver |].
      destruct (negb _); [intros [= <-]; set_solver | done].
    + destruct (negb _); [intros [= <-]; set_solver | done].
Qed.

(** ** Truncation of search results *)

Lemma length_append (a b : string) :
  String.length (a +:+ b) = (String.length a + String.length b)%nat.
Proof.
  induction a as [|c a IH]; [done |]. rewrite append_cons. simpl. by rewrite IH.
Qed.

Lemma slice_length (s : string) (n : nat) : (String.length (Str.slice s n) ≤ n)%nat.
Proof.
  revert s. induction n as [|n IH]; intros [|c s]; simpl; try lia.
  specialize (IH s). lia.
Qed.

Lemma slice_slice (s : string) (n m : nat) :
  Str.slice (Str.slice s n) m = Str.slice s (Nat.min n m).
Proof.
  revert s m. induction n as [|n IH]; intros [|c s] [|m]; simpl; try done.
  by rewrite IH.
Qed.

Lemma trimStart_length (s : string) :
  (String.length (Str.trimStart s) ≤ String.length s)%nat.
Proof.
  induction s as [|c s IH]; simpl; [done |]. destruct (Js.isSpace c); simpl; lia.
Qed.

Lemma trimEnd_length (s : string) :
  (String.length (Str.trimEnd s) ≤ String.length s)%nat.
Proof.
  induction s as [|c s IH]; simpl; [done |].
  destruct (Str.trimEnd s) as [|c' rest]; simpl in *.
  - destruct (Js.isSpace c); simpl; lia.
  - lia.
Qed.

Lemma trim_length (s : string) : (String.length (Str.trim s) ≤ String.length s)%nat.
Proof.
  unfold Str.trim. etrans; [apply trimEnd_length | apply trimStart_length].
Qed.

Lemma truncateText_cut (text : string) (maxChars : nat) :
  (maxChars < String.length text)%nat →
  ∃ cut marker,
    (cut ≤ maxChars)%nat
    ∧ marker ∈ [JsVal.nl +:+ JsVal.nl +:+ "..."; "..."]
    ∧ truncateText text maxChars = Str.trim (Str.slice text cut) +:+ marker.
Proof.
  intros Hlong. unfold truncateText.
  destruct text as [|c text]; [simpl in Hlong; lia |].
  change (truthy (String c text)) with true. cbn [negb].
  rewrite (proj2 (Nat.leb_gt _ _) Hlong).
  destruct (exceedsShare _ _ sixTenths).
  { eexists (Nat.min maxChars _), _. split; [lia |]. split; [| by rewrite slice_slice].
    set_solver. }
  destruct (exceedsShare _ _ oneHalf).
  { eexists (Nat.min maxChars _), _. split; [lia |]. split; [| by rewrite slice_slice].
    set_solver. }
  exists maxChars, "...". split; [lia |]. split; [set_solver | done].
Qed.

Lemma truncateText_length (text : string) (maxChars : nat) :
  (String.length (truncateText text maxChars) ≤ maxChars + 5)%nat.
Proof.
  destruct (decide (maxChars < String.length text)%nat) as [Hlong | Hshort].
  - destruct (truncateText_cut text maxChars Hlong) as (cut & marker & Hcut & Hmarker & ->).
    rewrite length_append.
    pose proof (trim_length (Str.slice text cut)).
    pose proof (slice_length text cut).
    assert (String.length marker ≤ 5)%nat; [| lia].
    apply elem_of_cons in Hmarker as [-> | Hmarker]; [vm_compute; lia |].
    apply list_elem_of_singleton in Hmarker as ->. vm_compute. lia.
  - unfold truncateText. destruct (negb (truthy text)); [simpl; lia |].
    rewrite (proj2 (Nat.leb_le _ _)) by lia. lia.
Qed.

Lemma truncateText_short (text : string) (maxChars : nat) :
  (String.length text ≤ maxChars)%nat → truncateText text maxChars = text.
Proof.
  intros Hshort. unfold truncateText. destruct text as [|c text]; [done |].
  change (truthy (String c text)) with true. cbn [negb].
  by rewrite (proj2 (Nat.leb_le _ _) Hshort).
Qed.

(** [truncateText] returns a text of at most [maxChars] characters as it
    is.  A longer text becomes a trimmed prefix of at most [maxChars]
    characters followed by the marker [...], alone or after a blank line;
    so the result never has more than [maxChars + 5] characters. *)
Theorem truncateText_keeps_a_bounded_prefix (text : string) (maxChars : nat) :
  ((String.length text ≤ maxChars)%nat → truncateText text maxChars = text)
  ∧ ((maxChars < String.length text)%nat →
     ∃ cut marker,
       (cut ≤ maxChars)%nat
       ∧ marker ∈ [JsVal.nl +:+ JsVal.nl +:+ "..."; "..."]
       ∧ truncateText text maxChars = Str.trim (Str.slice text cut) +:+ marker)
  ∧ (String.length (truncateText text maxChars) ≤ maxChars + 5)%nat.
Proof.
  split; [apply truncateText_short |].
  split; [apply truncateText_cut | apply truncateText_length].
Qed.

Lemma truncateText_witness_sentence :
  ∃ cut marker,
    (cut ≤ 30)%nat
    ∧ marker ∈ [JsVal.nl +:+ JsVal.nl +:+ "..."; "..."]
    ∧ truncateText "Short start. Then a much longer sentence follows here" 30
      = Str.trim (Str.slice "Short start. Then a much longer sentence follows here" cut)
        +:+ marker.
Proof.
  exact (proj1 (proj2 (truncateText_keeps_a_bounded_prefix
                         "Short start. Then a much longer sentence follows here" 30))
           ltac:(vm_compute; lia)).
Defined.

(** [prepareWebPageContent] keeps, in their order, at most [maxItems] of
    the items whose content is not blank, with their titles and links, and
    cuts each content to at most [maxCharsPerItem + 5] characters; a list
    within both limits and without blank contents is returned as it is. *)
Theorem prepareWebPageContent_bounds (contentItems : list ContentItem)
    (maxItems maxCharsPerItem : option nat) :
  let maxItems' := default DEFAULT_MAX_CONTENT_ITEMS maxItems in
  let maxChars := default DEFAULT_MAX_CHARS_PER_ITEM maxCharsPerItem in
  let prepared := prepareWebPageContent contentItems maxItems maxCharsPerItem in
  (length prepared ≤ Nat.min maxItems' (length contentItems))%nat
  ∧ map (λ item, (title item, link item)) prepared
      `sublist_of` map (λ item, (title item, link item)) contentItems
  ∧ (∀ item, item ∈ prepared →
       (String.length (content item) ≤ maxChars + 5)%nat
       ∧ ∃ source, source ∈ contentItems ∧ Js.trimNonEmpty (content source) = true
                   ∧ title item = title source ∧ link item = link source
                   ∧ content item = truncateText (content source) maxChars)
  ∧ ((length contentItems ≤ maxItems')%nat →
     Forall (λ item, Js.trimNonEmpty (content item) = true
                     ∧ (String.length (content item) ≤ maxChars)%nat) contentItems →
     prepared = contentItems).
Proof.
  intros maxItems' maxChars prepared. subst prepared. unfold prepareWebPageContent.
  fold maxItems' maxChars.
  set (kept := filter (λ item, Js.trimNonEmpty (content item) = true) contentItems).
  split.
  { rewrite length_map, length_take.
    pose proof (length_filter (λ item, Js.trimNonEmpty (content item) = true) contentItems).
    fold kept in H. lia. }
  split.
  { rewrite map_map. simpl.
    change (map (λ x, (title x, link x)) (take maxItems' kept))
      with ((λ x, (title x, link x)) <$> take maxItems' kept).
    change (map (λ item, (title item, link item)) contentItems)
      with ((λ item, (title item, link item)) <$> contentItems).
    apply fmap_sublist. etrans; [apply sublist_take | apply sublist_filter]. }
  split.
  { intros item Hitem. apply list_elem_of_In, in_map_iff in Hitem as (source & <- & Hsource).
    apply list_elem_of_In in Hsource. simpl.
    split; [apply truncateText_length |].
    exists source. apply (subseteq_take maxItems' kept) in Hsource.
    apply list_elem_of_filter in Hsource as [Hblank Hin]. done. }
  intros Hcount Hall.
  assert (Hkept : kept = contentItems).
  { subst kept. clear Hcount. induction Hall as [|item rest [Hblank _] _ IH]; [done |].
    rewrite filter_cons_True by done. by rewrite IH. }
  rewrite Hkept, take_ge by done.
  clear Hcount Hkept. induction Hall as [|[t l c] rest [_ Hshort] _ IH]; [done |].
  simpl in *. rewrite IH. by rewrite truncateText_short.
Qed.

Lemma prepareWebPageContent_witness_identity :
  prepareWebPageContent
    [mkContentItem "Rocq" "https://rocq-prover.org" "The Rocq prover."]
    None None
  = [mkContentItem "Rocq" "https://rocq-prover.org" "The Rocq prover."].
Proof.
  apply (proj2 (proj2 (proj2 (prepareWebPageContent_bounds
                                [mkContentItem "Rocq" "https://rocq-prover.org"
                                   "The Rocq prover."] None None)))).
  - vm_compute. lia.
  - constructor; [split; [reflexivity | vm_compute; lia] | constructor].
Defined.

(** [prepareReaderResults] keeps, in their order, at most [maxResults] of
    the results that have a non-empty markdown and, unless [requireSuccess]
    is false, did not fail, and cuts each markdown to at most
    [maxCharsPerResult + 5] characters. *)
Theorem prepareReaderResults_bounds (results : list TReaderResult)
    (maxResults maxCharsPerResult : option nat) (requireSuccess : option bool) :
  let maxResults' := default DEFAULT_MAX_RESULTS maxResults in
  let maxChars := default DEFAULT_MAX_CHARS_PER_RESULT maxCharsPerResult in
  let prepared := prepareReaderResults results maxResults maxCharsPerResult requireSuccess in
  (length prepared ≤ Nat.min maxResults' (length results))%nat
  ∧ map url prepared `sublist_of` map url results
  ∧ ∀ result, result ∈ prepared →
      ∃ source text,
        source ∈ results ∧ url result = url source ∧ success result = success source
        ∧ markdown source = Some text ∧ text ≠ EmptyString
        ∧ markdown result = Some (truncateText text maxChars)
        ∧ (String.length (truncateText text maxChars) ≤ maxChars + 5)%nat
        ∧ (requireSuccess ≠ Some false → success source ≠ Some false).
Proof.
  intros maxResults' maxChars prepared. subst prepared. unfold prepareReaderResults.
  fold maxResults' maxChars.
  set (P := λ result : TReaderResult,
              ¬ (default true requireSuccess = true ∧ success result = Some false)
              ∧ hasKey (markdown result) = true).
  set (kept := filter P results).
  split.
  { rewrite length_map, length_take.
    pose proof (length_filter P results). fold kept in H. lia. }
  split.
  { rewrite map_map. simpl.
    change (map (λ x, url x) (take maxResults' kept)) with (url <$> take maxResults' kept).
    change (map url results) with (url <$> results).
    apply fmap_sublist. etrans; [apply sublist_take | apply sublist_filter]. }
  intros result Hresult.
  apply list_elem_of_In, in_map_iff in Hresult as (source & <- & Hsource).
  apply list_elem_of_In in Hsource. simpl.
  apply (subseteq_take maxResults' kept) in Hsource.
  apply list_elem_of_filter in Hsource as [[Hsuccess Hmarkdown] Hin].
  destruct (markdown source) as [text|] eqn:Htext; [| done].
  exists source, text. simpl in Hmarkdown.
  split; [done |]. split; [done |]. split; [done |]. split; [done |].
  split; [by intros -> |]. split; [done |]. split; [apply truncateText_length |].
  intros Hrequire Hfailed. apply Hsuccess. split; [| done].
  destruct requireSuccess as [[]|]; done.
Qed.
